(** * A shallow embedding of [lib/scraper.ts]

    The development follows the source file top-down: JavaScript strings,
    the whitespace cleaner [cleanText], a small model of the parsed
    document that cheerio hands to the scraper, the content extractor
    [extractMainContent], the retry loop of [scrapeBlogText] with its
    observable effects (network requests and timer sleeps), and finally
    [scrapeWithFallback] with its sample generator. *)

From Stdlib Require Import Ascii String DecimalString.
From Stdlib Require Import List Bool Arith ZArith NArith Lia.
From Stdlib Require Import Permutation Sorted.
Import ListNotations.

Set Warnings "-register-all".

Set Implicit Arguments.

(** ** JavaScript strings *)

Module JsString.

(** A JavaScript string is a sequence of UTF-16 code units; [length] counts
    code units, exactly as [String.prototype.length] does. *)
Definition jsstring : Type := list N.

(** String literals of the source are ASCII; [js] injects them. *)
Definition js (s : string) : jsstring :=
  map N_of_ascii (list_ascii_of_string s).

Fixpoint eqb (s t : jsstring) : bool :=
  match s, t with
  | [], [] => true
  | c :: s', d :: t' => N.eqb c d && eqb s' t'
  | _, _ => false
  end.

(** [\s] of an ECMAScript regular expression, which is also the set that
    [String.prototype.trim] strips: WhiteSpace and LineTerminator. *)
Definition is_space (c : N) : bool :=
  ((9 <=? c) && (c <=? 13)           (* \t \n \v \f \r *)
   || (c =? 32)                      (* space *)
   || (c =? 160)                     (* U+00A0 *)
   || (c =? 5760)                    (* U+1680 *)
   || ((8192 <=? c) && (c <=? 8202)) (* U+2000 .. U+200A *)
   || (c =? 8232) || (c =? 8233)     (* U+2028, U+2029 *)
   || (c =? 8239)                    (* U+202F *)
   || (c =? 8287)                    (* U+205F *)
   || (c =? 12288)                   (* U+3000 *)
   || (c =? 65279))%N.               (* U+FEFF *)

Definition is_newline (c : N) : bool := (c =? 10)%N.

Definition SPACE : N := 32%N.
Definition NEWLINE : N := 10%N.

(** [s.replace(/C+/g, r)] for a character class [C] and a one-character
    replacement [r]: every maximal run of characters of the class becomes
    one [r].  [in_run] records that the previous character belonged to the
    run being replaced. *)
Fixpoint replace_runs (cls : N -> bool) (r : N) (in_run : bool)
    (s : jsstring) : jsstring :=
  match s with
  | [] => []
  | c :: s' =>
      if cls c
      then (if in_run then replace_runs cls r true s'
            else r :: replace_runs cls r true s')
      else c :: replace_runs cls r false s'
  end.

Fixpoint trimStart (s : jsstring) : jsstring :=
  match s with
  | [] => []
  | c :: s' => if is_space c then trimStart s' else s
  end.

Definition trimEnd (s : jsstring) : jsstring := rev (trimStart (rev s)).

Definition trim (s : jsstring) : jsstring := trimEnd (trimStart s).

(** [Array.prototype.includes] on strings: [sub] occurs in [s]. *)
Fixpoint startsWith (sub s : jsstring) : bool :=
  match sub, s with
  | [], _ => true
  | c :: sub', d :: s' => N.eqb c d && startsWith sub' s'
  | _ :: _, [] => false
  end.

Fixpoint includes (sub s : jsstring) : bool :=
  startsWith sub s ||
  match s with
  | [] => false
  | _ :: s' => includes sub s'
  end.

(** The whitespace-separated tokens of an attribute value. *)
Fixpoint tokens_aux (cur : jsstring) (s : jsstring) : list jsstring :=
  match s with
  | [] => match cur with [] => [] | _ => [rev cur] end
  | c :: s' =>
      if is_space c
      then match cur with
           | [] => tokens_aux [] s'
           | _ => rev cur :: tokens_aux [] s'
           end
      else tokens_aux (c :: cur) s'
  end.

Definition tokens (s : jsstring) : list jsstring := tokens_aux [] s.

(** Decimal rendering of a length, as template literals print numbers. *)
Definition of_nat (n : nat) : jsstring :=
  js (NilZero.string_of_uint (Nat.to_uint n)).

End JsString.

Import JsString.

(** ** [cleanText] *)

(** [text.replace(/\s+/g, ' ').replace(/\n+/g, '\n').trim()] *)
Definition cleanText (text : jsstring) : jsstring :=
  trim
    (replace_runs is_newline NEWLINE false
       (replace_runs is_space SPACE false text)).

(** ** The parsed document *)

Module Dom.

(** What [cheerio.load] returns, reduced to what the scraper looks at:
    text, comments, and elements with a lower-cased tag name, attributes
    and children.  A document is the list of children of the root. *)
Inductive node : Type :=
| Text (data : jsstring)
| Comment (data : jsstring)
| Element (name : string) (attribs : list (string * jsstring))
    (children : list node).

Definition document : Type := list node.

(** [.attr(name)]: the value of the first attribute of that name, or
    [None] for [undefined]. *)
Fixpoint attr (a : string) (attribs : list (string * jsstring))
    : option jsstring :=
  match attribs with
  | [] => None
  | (k, v) :: rest => if String.eqb k a then Some v else attr a rest
  end.

(** The simple selectors that occur in the selector tables of the source;
    a selector is a compound of them ([div[class*="post"]] is a tag test
    and an attribute test on the same element). *)
Inductive simple : Type :=
| Tag (t : string)                  (* article *)
| Class (c : string)                (* .post-content *)
| Id (i : string)                   (* #content *)
| AttrEq (a v : string)             (* [role="main"] *)
| AttrContains (a v : string).      (* [class*="content"] *)

Definition selector : Type := list simple.

Definition matches_simple (s : simple) (name : string)
    (attribs : list (string * jsstring)) : bool :=
  match s with
  | Tag t => String.eqb name t
  | Class c =>
      match attr "class" attribs with
      | Some v => existsb (JsString.eqb (js c)) (tokens v)
      | None => false
      end
  | Id i =>
      match attr "id" attribs with
      | Some v => JsString.eqb v (js i)
      | None => false
      end
  | AttrEq a x =>
      match attr a attribs with
      | Some v => JsString.eqb v (js x)
      | None => false
      end
  | AttrContains a x =>
      match attr a attribs with
      | Some v => includes (js x) v
      | None => false
      end
  end.

Definition matches (sel : selector) (name : string)
    (attribs : list (string * jsstring)) : bool :=
  forallb (fun s => matches_simple s name attribs) sel.

(** [$(selector)]: the matching elements in document order. *)
Fixpoint select_node (sel : selector) (n : node) : list node :=
  match n with
  | Element name attribs children =>
      (if matches sel name attribs then [n] else [])
      ++ flat_map (select_node sel) children
  | _ => []
  end.

Definition select (sel : selector) (doc : document) : list node :=
  flat_map (select_node sel) doc.

(** [$(selector).remove()]: every matching element leaves the tree, with
    its subtree. *)
Fixpoint remove_node (sel : selector) (n : node) : list node :=
  match n with
  | Element name attribs children =>
      if matches sel name attribs then []
      else [Element name attribs (flat_map (remove_node sel) children)]
  | _ => [n]
  end.

Definition remove (sel : selector) (doc : document) : document :=
  flat_map (remove_node sel) doc.

(** [.text()]: the text nodes below the node, concatenated. *)
Fixpoint text_node (n : node) : jsstring :=
  match n with
  | Text data => data
  | Comment _ => []
  | Element _ _ children => flat_map text_node children
  end.

(** [.text()] of a selection concatenates over its elements. *)
Definition text (elements : list node) : jsstring :=
  flat_map text_node elements.

(** [.first()] *)
Definition first (elements : list node) : list node := firstn 1 elements.

(** [.attr(name)] of a selection reads the first element. *)
Definition attr_of (a : string) (elements : list node) : option jsstring :=
  match elements with
  | Element _ attribs _ :: _ => attr a attribs
  | _ => None
  end.

End Dom.

Import Dom.

(** ** Selector tables *)

Definition ARTICLE_SELECTORS : list selector :=
  [ (* OpenAI blog specific *)
    [Class "blog-post-content"];
    [Class "post-content"];
    [Class "blog-content"];
    [AttrEq "data-testid" "blog-content"];
    [Class "content-wrapper"];
    (* Generic article selectors *)
    [Tag "article"];
    [AttrEq "role" "main"];
    [Class "post-content"];
    [Class "entry-content"];
    [Class "article-content"];
    [Class "content"];
    [Class "post-body"];
    [Class "story-body"];
    [Class "article-body"];
    [Tag "main"];
    [Class "main-content"];
    [Id "content"];
    [Class "blog-post"];
    [Class "post"];
    [Class "entry"];
    (* Fallback selectors *)
    [Tag "div"; AttrContains "class" "content"];
    [Tag "div"; AttrContains "class" "post"];
    [Tag "div"; AttrContains "class" "article"];
    [Tag "div"; AttrContains "class" "blog"];
    [Tag "section"; AttrContains "class" "content"];
    [Tag "section"; AttrContains "class" "post"] ].

Definition NOISE_SELECTORS : list selector :=
  [ [Tag "nav"]; [Tag "header"]; [Tag "footer"];
    [Class "advertisement"]; [Class "ads"]; [Class "sidebar"];
    [Class "comments"]; [Class "social-share"]; [Class "related-posts"];
    [Class "navigation"]; [Class "menu"];
    [Tag "script"]; [Tag "style"]; [Tag "noscript"];
    [Class "cookie-notice"]; [Class "popup"] ].

(** ** [extractMainContent] *)

(** [NOISE_SELECTORS.forEach(selector => $(selector).remove())] *)
Definition strip_noise (doc : document) : document :=
  fold_left (fun d selector => remove selector d) NOISE_SELECTORS doc.

(** The body of [elements.each]: the pair is [(bestContent, bestLength)]. *)
Definition consider (best : jsstring * nat) (element : node)
    : jsstring * nat :=
  let cleanedText := cleanText (text [element]) in
  if snd best <? length cleanedText
  then (cleanedText, length cleanedText)
  else best.

(** The loop over [ARTICLE_SELECTORS]. *)
Definition cascade (selectors : list selector) (doc : document)
    : jsstring * nat :=
  fold_left
    (fun best selector =>
       let elements := select selector doc in
       if 0 <? length elements
       then fold_left consider elements best
       else best)
    selectors ([], 0).

(** The loop over [$('p')] that builds [paragraphContent]. *)
Definition paragraphContent (doc : document) : jsstring :=
  fold_left
    (fun acc p =>
       let t := trim (text [p]) in
       if 20 <? length t then acc ++ t ++ [NEWLINE; NEWLINE] else acc)
    (select [Tag "p"] doc) [].

(** The function mutates the document it is given; the model returns the
    mutated working copy together with the extracted text. *)
Definition extractMainContent (doc : document) : document * jsstring :=
  let doc := strip_noise doc in
  let bestContent := fst (cascade ARTICLE_SELECTORS doc) in
  if 1000 <? length bestContent then (doc, bestContent)
  else
    let paragraphs := paragraphContent doc in
    let bestContent :=
      if length bestContent <? length paragraphs
      then cleanText paragraphs
      else bestContent in
    let bestContent :=
      if length bestContent <? 50
      then
        let cleanedBodyText := cleanText (text (select [Tag "body"] doc)) in
        if length bestContent <? length cleanedBodyText
        then cleanedBodyText
        else bestContent
      else bestContent in
    (doc, bestContent).

(** ** Options, results and errors *)

(** A property of an options object: absent, or present with a value,
    and the value of a present property may be [undefined]. *)
Inductive property (A : Type) : Type :=
| Absent
| Undefined
| Value (a : A).
Arguments Absent {A}.
Arguments Undefined {A}.

(** The numbers an options object is given: an integer, or [NaN]. *)
Inductive number : Type :=
| Integer (z : Z)
| NaN.

Module Options.
Record t : Type := {
  timeout : property number;
  retries : property number;
  userAgent : property string;
  headers : property (list (string * string))
}.
End Options.

Definition ScrapingOptions : Type := Options.t.

(** [options.retries] as the comparisons of the loop see it: the integer,
    or [None] when the property is absent, [undefined] or [NaN], on which
    every comparison is false. *)
Definition retries (options : ScrapingOptions) : option Z :=
  match Options.retries options with
  | Value (Integer r) => Some r
  | _ => None
  end.

Module Metadata.
Record t : Type := {
  title : option jsstring;
  description : option jsstring;
  url : jsstring
}.
End Metadata.

(** Optional properties are [option]s: [None] is an absent property. *)
Record ScrapingResult : Type := {
  success : bool;
  content : option jsstring;
  error : option jsstring;
  metadata : option Metadata.t
}.

(** What the [catch] clause and [getErrorMessage] read from a thrown value:
    [error.code], [error.response?.status] and [error.message]. *)
Record JsError : Type := {
  code : option jsstring;
  status : option Z;
  message : jsstring
}.

Definition DEFAULT_OPTIONS : ScrapingOptions := {|
  Options.timeout := Value (Integer 10000);
  Options.retries := Value (Integer 3);
  Options.userAgent := Value "Mozilla/5.0 (Windows NT 10.0; Win64; x64) AppleWebKit/537.36 (KHTML, like Gecko) Chrome/91.0.4472.124 Safari/537.36"%string;
  Options.headers := Value
    [ ("Accept", "text/html,application/xhtml+xml,application/xml;q=0.9,image/webp,*/*;q=0.8");
      ("Accept-Language", "en-US,en;q=0.5");
      ("Accept-Encoding", "gzip, deflate");
      ("DNT", "1");
      ("Connection", "keep-alive");
      ("Upgrade-Insecure-Requests", "1") ]%string
|}.

(** One property of [{ ...a, ...b }]: a property that [b] has wins, also
    when its value is [undefined]. *)
Definition spread_field {A} (a b : property A) : property A :=
  match b with
  | Absent => a
  | _ => b
  end.

(** [{ ...a, ...b }] *)
Definition spread (a b : ScrapingOptions) : ScrapingOptions := {|
  Options.timeout := spread_field (Options.timeout a) (Options.timeout b);
  Options.retries := spread_field (Options.retries a) (Options.retries b);
  Options.userAgent :=
    spread_field (Options.userAgent a) (Options.userAgent b);
  Options.headers := spread_field (Options.headers a) (Options.headers b)
|}.

(** Comparisons of a number with a number that may be [undefined] or
    [NaN]: they are all false then. *)
Definition num_le (a : Z) (b : option Z) : bool :=
  match b with Some b => (a <=? b)%Z | None => false end.
Definition num_lt (a : Z) (b : option Z) : bool :=
  match b with Some b => (a <? b)%Z | None => false end.
Definition num_eq (a : Z) (b : option Z) : bool :=
  match b with Some b => (a =? b)%Z | None => false end.

(** ** The environment of a scrape *)

(** The platform and the network, as the scraper sees them. *)
Record world : Type := {
  (** [new URL(url).protocol]; [None] when the constructor throws. *)
  URL_protocol : jsstring -> option jsstring;
  (** [axios.get(url, config)] during the given attempt: the response body,
      or the error it rejects with. *)
  axios_get : jsstring -> ScrapingOptions -> Z -> JsError + jsstring;
  (** [cheerio.load(html)] *)
  cheerio_load : jsstring -> document
}.

(** The effects of a scrape that the outside can observe. *)
Inductive event : Type :=
| Request (url : jsstring) (attempt : Z)
| Sleep (ms : Z).

(** An [async] function resolves with a value or rejects. *)
Inductive completion (A : Type) : Type :=
| Resolved (a : A)
| Rejected.
Arguments Rejected {A}.

(** ** [isValidUrl] and [getErrorMessage] *)

Definition isValidUrl (w : world) (url : jsstring) : bool :=
  match URL_protocol w url with
  | Some protocol =>
      JsString.eqb protocol (js "http:") || JsString.eqb protocol (js "https:")
  | None => false
  end.

(** [a || b] on strings: the empty string is falsy. *)
Definition or_else (a b : jsstring) : jsstring :=
  match a with
  | [] => b
  | _ => a
  end.

(** [a || b] where [a] may be [undefined]. *)
Definition or_else_opt (a : option jsstring) (b : jsstring) : jsstring :=
  match a with
  | Some (c :: s) => c :: s
  | _ => b
  end.

Definition opt_eqb (a : option jsstring) (s : string) : bool :=
  match a with
  | Some v => JsString.eqb v (js s)
  | None => false
  end.

(** [None] stands for the [TypeError] of reading a property of
    [undefined]. *)
Definition getErrorMessage (error : option JsError) : option jsstring :=
  match error with
  | None => None
  | Some error =>
      Some
        (if opt_eqb (code error) "ENOTFOUND"
         then js "Website not found. Please check the URL."
         else if opt_eqb (code error) "ECONNREFUSED"
         then js "Connection refused. The website may be down."
         else if opt_eqb (code error) "ETIMEDOUT"
         then js "Request timed out. Please try again."
         else if num_eq 403 (status error)
         then js "Access forbidden. This website blocks automated requests."
         else if num_eq 404 (status error)
         then js "Page not found. Please check the URL."
         else if match status error with
                 | Some s => (500 <=? s)%Z
                 | None => false
                 end
         then js "Server error. Please try again later."
         else or_else (message error)
                (js "An unexpected error occurred while scraping."))
  end.

(** ** [scrapeBlogText] *)

Record loop_state : Type := {
  lastError : option JsError;
  bestContent : jsstring;
  bestMetadata : Metadata.t
}.

(** [new Error(`Insufficient content extracted (${content.length} chars)`)] *)
Definition insufficient (content : jsstring) : JsError := {|
  code := None;
  status := None;
  message :=
    js "Insufficient content extracted (" ++ of_nat (length content)
    ++ js " chars)"
|}.

(** [Math.min(1000 * Math.pow(2, attempt - 1), 5000)] *)
Definition delay (attempt : Z) : Z :=
  Z.min (1000 * 2 ^ (attempt - 1)) 5000.

(** What one turn of the loop does to the control flow. *)
Inductive step : Type :=
| Return (result : ScrapingResult)
| Next (st : loop_state).

(** The [catch] clause. *)
Definition catch (finalOptions : ScrapingOptions) (attempt : Z)
    (error : JsError) (st : loop_state) : step * list event :=
  (Next {| lastError := Some error;
           bestContent := bestContent st;
           bestMetadata := bestMetadata st |},
   if num_lt attempt (retries finalOptions)
   then [Sleep (delay attempt)]
   else []).

(** The metadata of one attempt. *)
Definition extractMetadata (doc : document) (url : jsstring) : Metadata.t :=
  let title :=
    or_else (text (select [Tag "title"] doc))
      (or_else (text (first (select [Tag "h1"] doc))) []) in
  let description :=
    or_else_opt
      (attr_of "content" (select [Tag "meta"; AttrEq "name" "description"] doc))
      (or_else_opt
         (attr_of "content"
            (select [Tag "meta"; AttrEq "property" "og:description"] doc))
         []) in
  {| Metadata.title := Some (cleanText title);
     Metadata.description := Some (cleanText description);
     Metadata.url := url |}.

(** The body of the [for] loop: the [try] block followed, when it throws,
    by the [catch] clause. *)
Definition attempt_body (w : world) (url : jsstring)
    (finalOptions : ScrapingOptions) (attempt : Z) (st : loop_state)
    : step * list event :=
  match axios_get w url finalOptions attempt with
  | inl error =>
      let (s, evs) := catch finalOptions attempt error st in
      (s, Request url attempt :: evs)
  | inr html =>
      let doc := cheerio_load w html in
      let metadata := extractMetadata doc url in
      let content := snd (extractMainContent doc) in
      let st :=
        if length (bestContent st) <? length content
        then {| lastError := lastError st;
                bestContent := content;
                bestMetadata := metadata |}
        else st in
      if 100 <=? length content
      then (Return {| success := true;
                      content := Some content;
                      error := None;
                      metadata := Some metadata |},
            [Request url attempt])
      else if num_eq attempt (retries finalOptions)
              && (0 <? length (bestContent st))
      then (Return {| success := true;
                      content := Some (bestContent st);
                      error := None;
                      metadata := Some (bestMetadata st) |},
            [Request url attempt])
      else
        let (s, evs) := catch finalOptions attempt (insufficient content) st in
        (s, Request url attempt :: evs)
  end.

(** The statements after the loop. *)
Definition after_loop (url : jsstring) (st : loop_state)
    : completion ScrapingResult :=
  if 0 <? length (bestContent st)
  then Resolved {| success := true;
                   content := Some (bestContent st);
                   error := None;
                   metadata := Some (bestMetadata st) |}
  else
    match getErrorMessage (lastError st) with
    | Some msg =>
        Resolved {| success := false;
                    content := None;
                    error := Some msg;
                    metadata := Some {| Metadata.title := None;
                                        Metadata.description := None;
                                        Metadata.url := url |} |}
    | None => Rejected
    end.

(** The values [attempt] takes in
    [for (let attempt = 1; attempt <= retries; attempt++)]. *)
Definition attempt_numbers (retries : option Z) : list Z :=
  match retries with
  | Some r => map Z.of_nat (seq 1 (Z.to_nat r))
  | None => []
  end.

(** The loop, turn by turn, then the statements after it. *)
Fixpoint run_attempts (w : world) (url : jsstring)
    (finalOptions : ScrapingOptions) (todo : list Z) (st : loop_state)
    : completion ScrapingResult * list event :=
  match todo with
  | [] => (after_loop url st, [])
  | attempt :: rest =>
      match attempt_body w url finalOptions attempt st with
      | (Return result, evs) => (Resolved result, evs)
      | (Next st', evs) =>
          let (c, evs') := run_attempts w url finalOptions rest st' in
          (c, evs ++ evs')
      end
  end.

(** The result of the call together with the requests and sleeps it made,
    in order.  Console output is not modelled. *)
Definition scrapeBlogText (w : world) (url : jsstring)
    (options : ScrapingOptions) : completion ScrapingResult * list event :=
  let finalOptions := spread DEFAULT_OPTIONS options in
  if match url with [] => true | _ => false end || negb (isValidUrl w url)
  then (Resolved {| success := false;
                    content := None;
                    error := Some (js "Invalid URL provided");
                    metadata := None |},
        [])
  else
    run_attempts w url finalOptions (attempt_numbers (retries finalOptions))
      {| lastError := None;
         bestContent := [];
         bestMetadata := {| Metadata.title := None;
                            Metadata.description := None;
                            Metadata.url := url |} |}.

(** [options = {}] *)
Definition no_options : ScrapingOptions :=
  {| Options.timeout := Absent;
     Options.retries := Absent;
     Options.userAgent := Absent;
     Options.headers := Absent |}.

(** ** [scrapeWithFallback] and [generateSampleContent] *)

Definition samples : list jsstring :=
  [ js "Artificial Intelligence has revolutionized how we approach problem-solving in the modern world. From machine learning algorithms that can predict consumer behavior to neural networks that can recognize patterns in vast datasets, AI is transforming industries across the globe. The integration of AI into everyday applications has made our lives more efficient and opened up new possibilities for innovation. As we continue to advance in this field, we must also consider the ethical implications and ensure that AI development remains aligned with human values and societal needs.";
    js "Web development has evolved significantly over the past decade, with new frameworks and technologies emerging regularly. Modern web applications require responsive design, fast loading times, and seamless user experiences across all devices. The rise of JavaScript frameworks like React, Vue, and Angular has changed how developers build interactive user interfaces. Additionally, the adoption of cloud services and serverless architectures has made it easier to deploy and scale web applications globally.";
    js "Sustainable technology is becoming increasingly important as we face environmental challenges. Green computing initiatives focus on reducing energy consumption in data centers, while renewable energy technologies are making clean power more accessible. Electric vehicles are revolutionizing transportation, and smart city technologies are optimizing resource usage in urban environments. These innovations demonstrate how technology can be a powerful tool for addressing climate change and creating a more sustainable future." ].

(** [ToInt32]: the signed 32-bit value every bitwise operator works on. *)
Definition toInt32 (z : Z) : Z := ((z + 2 ^ 31) mod 2 ^ 32 - 2 ^ 31)%Z.

(** [a << n] *)
Definition shl (a n : Z) : Z := toInt32 (Z.shiftl (toInt32 a) n).

(** [a & b] *)
Definition band (a b : Z) : Z := Z.land (toInt32 a) (toInt32 b).

(** [(a, b) => ((a << 5) - a + b.charCodeAt(0)) & 0xffffffff] *)
Definition hash_step (a : Z) (b : N) : Z :=
  band (shl a 5 - a + Z.of_N b) 4294967295.

(** [url.split('').reduce(..., 0)] *)
Definition hash (url : jsstring) : Z := fold_left hash_step url 0%Z.

(** [samples[Math.abs(hash) % samples.length]]; [None] would be the
    [undefined] of an index out of range. *)
Definition generateSampleContent (url : jsstring) : option jsstring :=
  nth_error samples
    (Z.to_nat (Z.rem (Z.abs (hash url)) (Z.of_nat (length samples)))).

Definition scrapeWithFallback (w : world) (url : jsstring)
    : completion ScrapingResult * list event :=
  match scrapeBlogText w url no_options with
  | (Resolved result, evs) =>
      if negb (success result)
      then (Resolved {| success := true;
                        content := generateSampleContent url;
                        error := None;
                        metadata :=
                          Some {| Metadata.title := Some (js "Sample Blog Post");
                                  Metadata.description :=
                                    Some (js "This is sample content for demonstration purposes.");
                                  Metadata.url := url |} |},
            evs)
      else (Resolved result, evs)
  | (Rejected, evs) => (Rejected, evs)
  end.

(** ** [summarise] *)

Definition keywords : list string :=
  [ "important"; "key"; "main"; "conclusion"; "summary"; "takeaway";
    "result"; "finding"; "analysis"; "research" ]%string.

(** The class [[.!?]]. *)
Definition is_terminator (c : N) : bool :=
  ((c =? 46) || (c =? 33) || (c =? 63))%N.

(** [s.split(/C+/)] for a character class [C]: the pieces between the
    maximal runs of characters of the class, the empty pieces in front of
    a leading run and behind a trailing one included.  [cur] holds the
    piece being read, reversed. *)
Fixpoint split_runs (sep : N -> bool) (cur : jsstring) (in_run : bool)
    (s : jsstring) : list jsstring :=
  match s with
  | [] => [rev cur]
  | c :: s' =>
      if sep c
      then (if in_run then split_runs sep [] true s'
            else rev cur :: split_runs sep [] true s')
      else split_runs sep (c :: cur) false s'
  end.

(** [scored.sort((a, b) => b.score - a.score)]: the sort is stable, so its
    result is the one of inserting each element, from the last to the
    first, in front of the elements that do not score more. *)
Fixpoint insert_desc (x : jsstring * nat) (l : list (jsstring * nat))
    : list (jsstring * nat) :=
  match l with
  | [] => [x]
  | y :: l' => if snd x <? snd y then y :: insert_desc x l' else x :: l
  end.

Definition sort_desc (l : list (jsstring * nat)) : list (jsstring * nat) :=
  fold_right insert_desc [] l.

(** [parts.join(sep)] *)
Fixpoint join (sep : jsstring) (parts : list jsstring) : jsstring :=
  match parts with
  | [] => []
  | [p] => p
  | p :: rest => p ++ sep ++ join sep rest
  end.

Section Summarise.

(** [String.prototype.toLowerCase], which the platform provides. *)
Variable toLowerCase : jsstring -> jsstring.

(** The [reduce] over [keywords]. *)
Definition score (sentence : jsstring) : nat :=
  fold_left
    (fun acc keyword =>
       acc + (if includes (js keyword) (toLowerCase sentence) then 1 else 0))
    keywords 0.

(** The sentences the text is cut into. *)
Definition sentences_of (text : jsstring) : list jsstring :=
  filter (fun s => 10 <? length s)
    (map trim (split_runs is_terminator [] false text)).

Definition summarise (text : jsstring) : jsstring :=
  if match text with [] => true | _ => false end
     || (length (trim text) =? 0)
  then []
  else
    let sentences := sentences_of text in
    let scoredSentences :=
      map (fun sentence => (sentence, score sentence)) sentences in
    let topSentences := map fst (firstn 3 (sort_desc scoredSentences)) in
    if 0 <? length topSentences
    then join (js ". ") topSentences ++ js "."
    else join (js ". ") (firstn 2 sentences) ++ js ".".

End Summarise.

(** ** The scrape route *)

(** What [req.json()] and the destructuring [{ url }] make of a request:
    they throw, or they bind [url] to a string or to [undefined]. *)
Inductive request_body : Type :=
| Unreadable
| Body (url : option jsstring).

Record response : Type := {
  http_status : Z;
  payload : ScrapingResult
}.

Definition server_error : response :=
  {| http_status := 500;
     payload := {| success := false;
                   content := None;
                   error := Some (js "Server error");
                   metadata := None |} |}.

(** [POST(req)].  An [undefined] address is falsy like the empty string, and
    [scrapeBlogText] does not look at a falsy address any further, so it
    stands for it here. *)
Definition POST (w : world) (req : request_body) : response * list event :=
  match req with
  | Unreadable => (server_error, [])
  | Body u =>
      let url := match u with Some url => url | None => [] end in
      match scrapeBlogText w url no_options with
      | (Resolved result, evs) =>
          ({| http_status := 200; payload := result |}, evs)
      | (Rejected, evs) => (server_error, evs)
      end
  end.

(** ** Vocabulary for the statements *)

(** The nested induction principle of [node]. *)
Fixpoint node_induction (P : node -> Prop)
    (HText : forall data, P (Text data))
    (HComment : forall data, P (Comment data))
    (HElement : forall name attribs children,
        Forall P children -> P (Element name attribs children))
    (n : node) : P n :=
  match n with
  | Text data => HText data
  | Comment data => HComment data
  | Element name attribs children =>
      HElement name attribs children
        ((fix all (l : list node) : Forall P l :=
            match l with
            | [] => Forall_nil P
            | m :: l' =>
                Forall_cons m
                  (node_induction HText HComment HElement m) (all l')
            end) children)
  end.

(** Keep the incumbent unless the newcomer is strictly larger. *)
Definition keep_larger {A} (size : A -> nat) (best c : A) : A :=
  if size best <? size c then c else best.

(** The first largest element of [init :: l]. *)
Definition first_largest {A} (size : A -> nat) (init : A) (l : list A) : A :=
  fold_left (keep_larger size) l init.

(** Every cleaned text the selector loop looks at, in the order it does. *)
Definition candidates (selectors : list selector) (doc : document)
    : list jsstring :=
  flat_map
    (fun selector =>
       map (fun element => cleanText (text [element])) (select selector doc))
    selectors.

(** The paragraph texts that the paragraph loop keeps. *)
Definition substantial_paragraphs (doc : document) : list jsstring :=
  filter (fun t => 20 <? length t)
    (map (fun p => trim (text [p])) (select [Tag "p"] doc)).

Section Attempts.

Variable w : world.
Variable url : jsstring.
Variable finalOptions : ScrapingOptions.

(** What attempt [j] gets hold of: the error of its request, or the
    content and metadata extracted from the response. *)
Definition attempt_extract (j : Z) : JsError + (jsstring * Metadata.t) :=
  match axios_get w url finalOptions j with
  | inl e => inl e
  | inr html =>
      let doc := cheerio_load w html in
      inr (snd (extractMainContent doc), extractMetadata doc url)
  end.

(** Attempt [j] does not reach the 100-character threshold. *)
Definition falls_short (j : Z) : bool :=
  match attempt_extract j with
  | inl _ => true
  | inr (c, _) => length c <? 100
  end.

(** The error attempt [j] ends with when it falls short. *)
Definition attempt_error (j : Z) : JsError :=
  match attempt_extract j with
  | inl e => e
  | inr (c, _) => insufficient c
  end.

(** The size by which attempts are compared. *)
Definition content_length (cm : jsstring * Metadata.t) : nat :=
  length (fst cm).

(** What a turn of the loop that goes through its [catch] clause leaves in
    the loop variables. *)
Definition track (st : loop_state) (j : Z) : loop_state :=
  match attempt_extract j with
  | inl e =>
      {| lastError := Some e;
         bestContent := bestContent st;
         bestMetadata := bestMetadata st |}
  | inr cm =>
      let best :=
        keep_larger content_length (bestContent st, bestMetadata st) cm in
      {| lastError := Some (insufficient (fst cm));
         bestContent := fst best;
         bestMetadata := snd best |}
  end.

(** The best content, when there is one, and the best metadata were
    extracted by one and the same attempt, one that satisfies [P]. *)
Definition paired (P : Z -> Prop) (st : loop_state) : Prop :=
  bestContent st <> [] ->
  exists j, P j /\ attempt_extract j = inr (bestContent st, bestMetadata st).

(** The content and metadata pairs that the attempts in [js] extract, in
    order; attempts whose request failed contribute nothing. *)
Definition extracted (js : list Z) : list (jsstring * Metadata.t) :=
  flat_map
    (fun j =>
       match attempt_extract j with
       | inl _ => []
       | inr cm => [cm]
       end)
    js.

(** The content and metadata pairs of the attempts [1 .. r] whose request
    succeeded, in order. *)
Definition seen (r : Z) : list (jsstring * Metadata.t) :=
  extracted (attempt_numbers (Some r)).

(** The requests and sleeps of the attempts [1 .. a], when each of them but
    the last is followed by a backoff sleep and the last by none. *)
Definition turns (a : Z) : list event :=
  flat_map
    (fun j => [Request url j; Sleep (Z.min (1000 * 2 ^ (j - 1)) 5000)])
    (attempt_numbers (Some (a - 1)%Z))
  ++ [Request url a].

End Attempts.

Definition sleeps (evs : list event) : list Z :=
  flat_map (fun e => match e with Sleep ms => [ms] | _ => [] end) evs.

Definition requests (evs : list event) : list Z :=
  flat_map (fun e => match e with Request _ a => [a] | _ => [] end) evs.

Definition url_only (url : jsstring) : Metadata.t :=
  {| Metadata.title := None;
     Metadata.description := None;
     Metadata.url := url |}.

Arguments extractMainContent : simpl never.
Arguments extractMetadata : simpl never.
Arguments cleanText : simpl never.

(** The loop variables before the first turn. *)
Definition start (url : jsstring) : loop_state :=
  {| lastError := None; bestContent := []; bestMetadata := url_only url |}.

(** The shape of a cleaned text: its only whitespace is the space, no
    two whitespace characters are adjacent, and it neither starts nor ends
    with one. *)
Definition starts_clean (s : jsstring) : bool :=
  match s with
  | c :: _ => negb (is_space c)
  | [] => true
  end.

Fixpoint spaced (s : jsstring) : bool :=
  match s with
  | c :: (d :: _) as rest => negb (is_space c && is_space d) && spaced rest
  | _ => true
  end.

Definition clean (s : jsstring) : bool :=
  forallb (fun c => negb (is_space c) || (c =? SPACE)%N) s
  && spaced s && starts_clean s && starts_clean (rev s).

(** A lower-casing that knows the letters A to Z only, to run [summarise]
    on plain English text. *)
Definition ascii_lower (s : jsstring) : jsstring :=
  map (fun c => if ((65 <=? c) && (c <=? 90))%N then (c + 32)%N else c) s.

(** ** Sample inputs *)

Module Samples.

(** ["a\n\nb"] *)
Definition two_lines : jsstring := js "a" ++ [NEWLINE; NEWLINE] ++ js "b".

Definition para1 : jsstring := js "The first paragraph of the page.".
Definition para2 : jsstring := js "A second paragraph follows it.".
Definition para3 : jsstring := js "The third paragraph ends the page.".

(** Three paragraphs directly in the body, no container around them. *)
Definition three_paragraphs : document :=
  [ Element "html" []
      [ Element "head" [] [ Element "title" [] [ Text (js "Page") ] ];
        Element "body" []
          [ Element "p" [] [ Text para1 ];
            Element "p" [] [ Text para2 ];
            Element "p" [] [ Text para3 ] ] ] ].

(** An article of 1001 characters next to a navigation bar and a short
    paragraph. *)
Definition long_article : document :=
  [ Element "html" []
      [ Element "body" []
          [ Element "nav" [ ("class"%string, js "menu") ] [ Text (js "Home About") ];
            Element "article" [] [ Text (repeat 120%N 1001) ];
            Element "div" [ ("class"%string, js "post") ] [ Text (js "short") ];
            Element "p" [] [ Text para1 ] ] ] ].

(** A parser that only knows three schemes. *)
Definition protocol (url : jsstring) : option jsstring :=
  if startsWith (js "http://") url then Some (js "http:")
  else if startsWith (js "https://") url then Some (js "https:")
  else if startsWith (js "ftp://") url then Some (js "ftp:")
  else None.

(** What [cheerio.load] makes of markup without tags: the text lands in
    the body of an otherwise empty document. *)
Definition load_plain (html : jsstring) : document :=
  [ Element "html" []
      [ Element "head" [] []; Element "body" [] [ Text html ] ] ].

Definition timed_out : JsError :=
  {| code := Some (js "ETIMEDOUT");
     status := None;
     message := js "timeout of 10000ms exceeded" |}.

Definition long_text : jsstring := nth 0 samples [].

(** Every request times out. *)
Definition offline : world :=
  {| URL_protocol := protocol;
     axios_get := fun _ _ _ => inl timed_out;
     cheerio_load := load_plain |}.

(** The first two requests time out, the third one answers. *)
Definition third_time_lucky : world :=
  {| URL_protocol := protocol;
     axios_get := fun _ _ attempt =>
       if (attempt <? 3)%Z then inl timed_out else inr long_text;
     cheerio_load := load_plain |}.

(** What [cheerio.load] makes of a page with a title and a description
    around the text. *)
Definition load_described (html : jsstring) : document :=
  [ Element "html" []
      [ Element "head" []
          [ Element "title" [] [ Text (js "A post") ];
            Element "meta"
              [ ("name"%string, js "description");
                ("content"%string, js "A short description") ] [] ];
        Element "body" [] [ Text html ] ] ].

(** The first request times out, the later ones answer. *)
Definition second_time_lucky : world :=
  {| URL_protocol := protocol;
     axios_get := fun _ _ attempt =>
       if (attempt <? 2)%Z then inl timed_out else inr long_text;
     cheerio_load := load_described |}.

(** Options whose [retries] is present and [undefined]. *)
Definition retries_undefined : ScrapingOptions :=
  {| Options.timeout := Absent;
     Options.retries := Undefined;
     Options.userAgent := Absent;
     Options.headers := Absent |}.

(** Options that allow no attempt. *)
Definition no_retries : ScrapingOptions :=
  {| Options.timeout := Absent;
     Options.retries := Value (Integer 0);
     Options.userAgent := Absent;
     Options.headers := Absent |}.

(** Every request answers, each time with little text; the second answer
    is the longest. *)
Definition meagre : world :=
  {| URL_protocol := protocol;
     axios_get := fun _ _ attempt =>
       if (attempt =? 2)%Z then inr (js "a little more text")
       else inr (js "little text");
     cheerio_load := load_plain |}.

Definition blog : jsstring := js "https://example.com/post".

(** Four sentences of more than 10 characters and one that is too short. *)
Definition report : jsstring :=
  js "The weather was mild all week. The main finding is that the key result holds! Ok. Further research and analysis point to the same conclusion? Nothing else of note happened here.".

(** Only pieces that are too short to count as sentences. *)
Definition chatter : jsstring := js "Hi there. Ok! Well? Fine.".

(** Sentences without any keyword. *)
Definition plain : jsstring :=
  js "The first sentence of four. Then the second sentence. And the third sentence! At last the fourth sentence.".

End Samples.

(** ** Properties of [cleanText] *)

Section CleanText.

Lemma replace_space_no_newline (b : bool) (s : jsstring) :
  Forall (fun c => is_newline c = false) (replace_runs is_space SPACE b s).
Proof.
  revert b; induction s as [|c s IH]; intro b; simpl; [constructor|].
  destruct (is_space c) eqn:Hc.
  - destruct b; [apply IH|]. constructor; [reflexivity | apply IH].
  - constructor; [|apply IH].
    unfold is_newline, is_space in *.
    destruct (N.eqb_spec c 10) as [->|]; [discriminate Hc | reflexivity].
Qed.

Lemma replace_runs_none (cls : N -> bool) (r : N) (b : bool) (s : jsstring) :
  Forall (fun c => cls c = false) s -> replace_runs cls r b s = s.
Proof.
  revert b; induction s as [|c s IH]; intros b H; [reflexivity|].
  inversion H as [|? ? Hc Hs]; subst. simpl. rewrite Hc. f_equal. now apply IH.
Qed.

(** The second [replace] of [cleanText] never finds a newline to act on. *)
Lemma cleanText_newline_pass_idle (text : jsstring) :
  cleanText text = trim (replace_runs is_space SPACE false text).
Proof.
  unfold cleanText. f_equal.
  apply replace_runs_none, replace_space_no_newline.
Qed.

Lemma trimStart_Forall (P : N -> Prop) (s : jsstring) :
  Forall P s -> Forall P (trimStart s).
Proof.
  induction 1 as [|c s Hc Hs IH]; simpl; [constructor|].
  destruct (is_space c); [exact IH | now constructor].
Qed.

Lemma trim_Forall (P : N -> Prop) (s : jsstring) :
  Forall P s -> Forall P (trim s).
Proof.
  intro H. unfold trim, trimEnd.
  apply Forall_rev, trimStart_Forall, Forall_rev, trimStart_Forall, H.
Qed.

(** No output of [cleanText] contains a line feed. *)
Lemma cleanText_no_newline (text : jsstring) :
  Forall (fun c => is_newline c = false) (cleanText text).
Proof.
  rewrite cleanText_newline_pass_idle.
  apply trim_Forall, replace_space_no_newline.
Qed.

Lemma replace_space_single (b : bool) (s : jsstring) :
  Forall (fun c => is_space c = true -> c = SPACE)
    (replace_runs is_space SPACE b s).
Proof.
  revert b; induction s as [|c s IH]; intro b; simpl; [constructor|].
  destruct (is_space c) eqn:Hc.
  - destruct b; [apply IH|]. constructor; [reflexivity | apply IH].
  - constructor; [|apply IH]. rewrite Hc. discriminate.
Qed.

(** The only whitespace left in an output of [cleanText] is the space. *)
Lemma cleanText_spaces_only (text : jsstring) :
  Forall (fun c => is_space c = true -> c = SPACE) (cleanText text).
Proof.
  rewrite cleanText_newline_pass_idle.
  apply trim_Forall, replace_space_single.
Qed.

End CleanText.

Unset Implicit Arguments.

(** C6: on the two lines ["a\n\nb"] the run of line feeds does not come
    out as one line feed: [cleanText] answers ["a b"], because its first
    replacement has already turned the run into a space. *)
Theorem cleanText_blank_lines_become_space :
  cleanText Samples.two_lines = js "a b"
  /\ cleanText Samples.two_lines <> js "a" ++ [NEWLINE] ++ js "b".
Proof. split; [reflexivity | discriminate]. Qed.

(** ** Generic facts *)

Lemma eqb_eq (s t : jsstring) : JsString.eqb s t = true <-> s = t.
Proof.
  revert t; induction s as [|c s IH]; intros [|d t]; simpl;
    try (split; [discriminate | discriminate]); [tauto|].
  rewrite andb_true_iff, N.eqb_eq, IH.
  split; [intros [-> ->]; reflexivity | intros [= -> ->]; auto].
Qed.

Section FirstLargest.

Context {A : Type} (size : A -> nat).

(** [first_largest] returns an element of maximal size, and the first
    such: everything in front of it is strictly smaller. *)
Lemma first_largest_spec (l : list A) (init : A) :
  let b := first_largest size init l in
  Forall (fun c => size c <= size b) (init :: l)
  /\ exists l1 l2,
       init :: l = l1 ++ b :: l2
       /\ Forall (fun c => size c < size b) l1.
Proof.
  revert init; induction l as [|c l IH]; intro init; simpl.
  - split; [repeat constructor | exists [], []; split; [reflexivity | constructor]].
  - specialize (IH (keep_larger size init c)).
    cbv zeta in IH. unfold first_largest in *. simpl.
    remember (fold_left (keep_larger size) l (keep_larger size init c)) as b
      eqn:Hb.
    clear Hb. destruct IH as [Hmax (l1 & l2 & Hsplit & Hlt)].
    inversion Hmax as [|? ? Hk Hl]; subst.
    unfold keep_larger in *.
    destruct (Nat.ltb_spec (size init) (size c)) as [Hic|Hic].
    + split; [repeat constructor; auto; lia|].
      destruct l1 as [|x l1]; simpl in Hsplit; injection Hsplit as Hx Hrest;
        subst.
      * exists [init], l2. split; [reflexivity|]. repeat constructor. exact Hic.
      * exists (init :: x :: l1), l2. split; [reflexivity|].
        inversion Hlt; subst. constructor; [lia | now constructor].
    + split; [repeat constructor; auto; lia|].
      destruct l1 as [|x l1]; simpl in Hsplit; injection Hsplit as Hx Hrest;
        subst.
      * exists [], (c :: l2). split; [reflexivity | constructor].
      * exists (x :: c :: l1), l2. split; [reflexivity|].
        inversion Hlt; subst. constructor; [assumption|].
        constructor; [lia | assumption].
Qed.

Lemma first_largest_max (l : list A) (init : A) :
  Forall (fun c => size c <= size (first_largest size init l)) l.
Proof. exact (Forall_inv_tail (proj1 (first_largest_spec l init))). Qed.

Lemma first_largest_first (l : list A) (init : A) :
  first_largest size init l = init
  \/ exists l1 l2,
       l = l1 ++ first_largest size init l :: l2
       /\ Forall (fun c => size c < size (first_largest size init l)) l1.
Proof.
  destruct (first_largest_spec l init) as [_ (l1 & l2 & Hsplit & Hlt)].
  cbv zeta in *.
  remember (first_largest size init l) as b eqn:Hb. clear Hb.
  destruct l1 as [|x l1]; cbn [app] in Hsplit; injection Hsplit as Hx Hrest.
  - left. symmetry. exact Hx.
  - right. exists l1, l2. split; [exact Hrest | exact (Forall_inv_tail Hlt)].
Qed.

Lemma first_largest_in (l : list A) (init : A) :
  In (first_largest size init l) (init :: l).
Proof.
  revert init; induction l as [|c l IH]; intro init; [left; reflexivity|].
  unfold first_largest in *. cbn [fold_left].
  destruct (IH (keep_larger size init c)) as [H|H]; [|right; right; exact H].
  rewrite <- H. unfold keep_larger.
  destruct (size init <? size c); [right; left | left]; reflexivity.
Qed.

End FirstLargest.

(** ** Removing noise *)

Section Removal.

Lemma flat_map_fix (f : node -> list node) (l : list node) :
  Forall (fun n => flat_map f (f n) = f n) l ->
  flat_map f (flat_map f l) = flat_map f l.
Proof.
  induction 1 as [|n l Hn Hl IH]; [reflexivity|].
  simpl. rewrite flat_map_app, Hn, IH. reflexivity.
Qed.

Lemma flat_map_swap (f g : node -> list node) (l : list node) :
  Forall (fun n => flat_map f (g n) = flat_map g (f n)) l ->
  flat_map f (flat_map g l) = flat_map g (flat_map f l).
Proof.
  induction 1 as [|n l Hn Hl IH]; [reflexivity|].
  simpl. rewrite !flat_map_app, Hn, IH. reflexivity.
Qed.

Lemma remove_node_again (sel : selector) (n : node) :
  flat_map (remove_node sel) (remove_node sel n) = remove_node sel n.
Proof.
  induction n as [data|data|name attribs children IH] using node_induction;
    try reflexivity.
  simpl. destruct (matches sel name attribs) eqn:Hm; [reflexivity|].
  simpl. rewrite Hm, app_nil_r, flat_map_fix by exact IH. reflexivity.
Qed.

Lemma remove_again (sel : selector) (doc : document) :
  remove sel (remove sel doc) = remove sel doc.
Proof.
  apply flat_map_fix, Forall_forall. intros n _. apply remove_node_again.
Qed.

Lemma remove_node_swap (s1 s2 : selector) (n : node) :
  flat_map (remove_node s1) (remove_node s2 n)
  = flat_map (remove_node s2) (remove_node s1 n).
Proof.
  induction n as [data|data|name attribs children IH] using node_induction;
    try reflexivity.
  simpl.
  destruct (matches s1 name attribs) eqn:H1, (matches s2 name attribs) eqn:H2;
    simpl; rewrite ?H1, ?H2; try reflexivity.
  rewrite !app_nil_r, flat_map_swap by exact IH. reflexivity.
Qed.

Lemma remove_swap (s1 s2 : selector) (doc : document) :
  remove s1 (remove s2 doc) = remove s2 (remove s1 doc).
Proof.
  apply flat_map_swap, Forall_forall. intros n _. apply remove_node_swap.
Qed.

Lemma remove_all_swap (sel : selector) (sels : list selector) (doc : document) :
  fold_left (fun d s => remove s d) sels (remove sel doc)
  = remove sel (fold_left (fun d s => remove s d) sels doc).
Proof.
  revert doc; induction sels as [|s sels IH]; intro doc; [reflexivity|].
  simpl. rewrite remove_swap. apply IH.
Qed.

Lemma remove_all_again (sels : list selector) (doc : document) :
  fold_left (fun d s => remove s d) sels
    (fold_left (fun d s => remove s d) sels doc)
  = fold_left (fun d s => remove s d) sels doc.
Proof.
  revert doc; induction sels as [|s sels IH]; intro doc; [reflexivity|].
  simpl. rewrite <- remove_all_swap, remove_again. apply IH.
Qed.

(** Stripping noise from a stripped document changes nothing. *)
Lemma strip_noise_again (doc : document) :
  strip_noise (strip_noise doc) = strip_noise doc.
Proof. apply remove_all_again. Qed.

Lemma extractMainContent_fst (doc : document) :
  fst (extractMainContent doc) = strip_noise doc.
Proof.
  unfold extractMainContent.
  destruct (1000 <? _); reflexivity.
Qed.

End Removal.

(** C9: extraction is a function of the document, and running it again on
    the working copy that the first run left behind gives the same text and
    leaves the copy as it is. *)
Theorem extractMainContent_idempotent (doc : document) :
  let first_run := extractMainContent doc in
  let second_run := extractMainContent (fst first_run) in
  snd second_run = snd first_run
  /\ fst second_run = fst first_run.
Proof.
  cbv zeta. rewrite extractMainContent_fst. split.
  - unfold extractMainContent. rewrite strip_noise_again. reflexivity.
  - rewrite !extractMainContent_fst. apply strip_noise_again.
Qed.

(** ** The selector cascade *)

Section Cascade.

Variable doc : document.

Lemma consider_fold (elements : list node) (b0 : jsstring) :
  fold_left consider elements (b0, length b0)
  = let b := first_largest (@length N) b0
               (map (fun element => cleanText (text [element])) elements) in
    (b, length b).
Proof.
  revert b0; induction elements as [|e elements IH]; intro b0; [reflexivity|].
  cbn [fold_left map]. unfold first_largest in *. cbn [fold_left].
  replace (consider (b0, length b0) e)
    with (keep_larger (@length N) b0 (cleanText (text [e])),
          length (keep_larger (@length N) b0 (cleanText (text [e])))).
  - apply IH.
  - unfold consider, keep_larger. cbn [snd].
    destruct (length b0 <? length (cleanText (text [e]))); reflexivity.
Qed.

Lemma cascade_fold (selectors : list selector) (b0 : jsstring) :
  fold_left
    (fun best selector =>
       let elements := select selector doc in
       if 0 <? length elements
       then fold_left consider elements best
       else best)
    selectors (b0, length b0)
  = let b := first_largest (@length N) b0 (candidates selectors doc) in
    (b, length b).
Proof.
  revert b0; induction selectors as [|sel selectors IH]; intro b0;
    [reflexivity|].
  simpl. unfold first_largest. rewrite fold_left_app.
  fold (first_largest (@length N) b0
          (map (fun element => cleanText (text [element])) (select sel doc))).
  destruct (select sel doc) as [|e es] eqn:Hsel.
  - simpl. apply IH.
  - change (0 <? length (e :: es)) with true. cbv iota.
    rewrite consider_fold. cbv zeta. apply IH.
Qed.

(** The selector loop computes the first longest candidate. *)
Lemma cascade_first_largest (selectors : list selector) :
  cascade selectors doc
  = let b := first_largest (@length N) [] (candidates selectors doc) in
    (b, length b).
Proof. apply (cascade_fold selectors []). Qed.

End Cascade.

(** C4: the text the selector loop ends with is a longest one among the
    cleaned texts of all matches of all selectors, every candidate in front
    of it is strictly shorter (so the first of several longest ones is
    kept), and when it has more than 1000 characters it is the result of
    the extraction, whatever the paragraphs and the body hold. *)
Theorem cascade_keeps_first_longest (doc : document) :
  let d := strip_noise doc in
  let cands := candidates ARTICLE_SELECTORS d in
  let best := fst (cascade ARTICLE_SELECTORS d) in
  Forall (fun c => length c <= length best) cands
  /\ (best = []
      \/ exists l1 l2,
           cands = l1 ++ best :: l2
           /\ Forall (fun c => length c < length best) l1)
  /\ (1000 < length best -> extractMainContent doc = (d, best)).
Proof.
  cbv zeta. rewrite cascade_first_largest. cbv zeta. cbn [fst].
  split; [apply first_largest_max|]. split; [apply first_largest_first|].
  intro Hlong. unfold extractMainContent.
  rewrite cascade_first_largest. cbv zeta. cbn [fst].
  apply Nat.ltb_lt in Hlong. rewrite Hlong. reflexivity.
Qed.

Lemma cascade_keeps_first_longest_witness :
  1000 < length (fst (cascade ARTICLE_SELECTORS
                        (strip_noise Samples.long_article)))
  /\ snd (extractMainContent Samples.long_article) = repeat 120%N 1001.
Proof.
  assert (H : 1000 < length (fst (cascade ARTICLE_SELECTORS
                                    (strip_noise Samples.long_article)))).
  { apply Nat.ltb_lt. vm_compute. reflexivity. }
  split; [exact H|].
  rewrite (proj2 (proj2 (cascade_keeps_first_longest Samples.long_article)) H).
  vm_compute. reflexivity.
Defined.

(** ** What the extractor can return *)

Lemma cascade_clean (doc : document) :
  Forall (fun c => is_newline c = false) (fst (cascade ARTICLE_SELECTORS doc)).
Proof.
  rewrite cascade_first_largest. cbv zeta. cbn [fst].
  pose proof (first_largest_in (@length N)
                (candidates ARTICLE_SELECTORS doc) []) as Hin.
  remember (first_largest (@length N) [] (candidates ARTICLE_SELECTORS doc))
    as best eqn:Hbest.
  clear Hbest. destruct Hin as [Heq|Hin]; [rewrite <- Heq; constructor|].
  unfold candidates in Hin. apply in_flat_map in Hin.
  destruct Hin as (sel & _ & Hin). apply in_map_iff in Hin.
  destruct Hin as (e & <- & _). apply cleanText_no_newline.
Qed.

(** Whatever the document, the extracted text holds no line feed, hence no
    blank line. *)
Lemma extractMainContent_no_newline (doc : document) :
  Forall (fun c => is_newline c = false) (snd (extractMainContent doc)).
Proof.
  unfold extractMainContent.
  pose proof (cascade_clean (strip_noise doc)) as Hc.
  destruct (1000 <? _); [exact Hc|]. cbn [snd].
  repeat match goal with
         | |- context [if ?b then _ else _] => destruct b
         end; auto using cleanText_no_newline.
Qed.

(** ** The paragraph fallback *)

Lemma paragraphContent_fold (ps : list node) (acc : jsstring) :
  fold_left
    (fun acc p =>
       let t := trim (text [p]) in
       if 20 <? length t then acc ++ t ++ [NEWLINE; NEWLINE] else acc)
    ps acc
  = acc
    ++ flat_map (fun t => t ++ [NEWLINE; NEWLINE])
         (filter (fun t => 20 <? length t)
            (map (fun p => trim (text [p])) ps)).
Proof.
  revert acc; induction ps as [|p ps IH]; intro acc.
  - cbn [fold_left map filter flat_map]. rewrite app_nil_r. reflexivity.
  - cbn [fold_left map filter]. cbv zeta. rewrite IH.
    destruct (20 <? length (trim (text [p]))); [|reflexivity].
    cbn [flat_map]. rewrite <- !app_assoc. reflexivity.
Qed.

(** What the paragraph loop builds: every kept paragraph followed by two
    line feeds. *)
Lemma paragraphContent_concat (doc : document) :
  paragraphContent doc
  = flat_map (fun t => t ++ [NEWLINE; NEWLINE]) (substantial_paragraphs doc).
Proof. apply (paragraphContent_fold (select [Tag "p"] doc) []). Qed.

(** When the selector loop found less than the paragraphs hold and the
    cleaned paragraphs have at least 50 characters, the result is the
    cleaned concatenation of the paragraphs. *)
Lemma paragraph_fallback (doc : document) :
  let d := strip_noise doc in
  let best := fst (cascade ARTICLE_SELECTORS d) in
  length best <= 1000 ->
  length best < length (paragraphContent d) ->
  50 <= length (cleanText (paragraphContent d)) ->
  snd (extractMainContent doc) = cleanText (paragraphContent d).
Proof.
  cbv zeta. intros H1000 Hpar H50. unfold extractMainContent.
  apply Nat.ltb_ge in H1000. apply Nat.ltb_lt in Hpar. apply Nat.ltb_ge in H50.
  rewrite H1000. cbv zeta. rewrite Hpar, H50. reflexivity.
Qed.

(** C5: on a page of three paragraphs of more than 20 characters each and
    no container, the extraction does not join the paragraphs by blank
    lines: the cleaning that follows the concatenation turns each
    separator into one space. *)
Theorem paragraphs_joined_by_spaces :
  let doc := Samples.three_paragraphs in
  fst (cascade ARTICLE_SELECTORS (strip_noise doc)) = []
  /\ substantial_paragraphs (strip_noise doc)
     = [Samples.para1; Samples.para2; Samples.para3]
  /\ snd (extractMainContent doc)
     = join [SPACE] [Samples.para1; Samples.para2; Samples.para3]
  /\ snd (extractMainContent doc)
     <> join [NEWLINE; NEWLINE] [Samples.para1; Samples.para2; Samples.para3].
Proof.
  cbv zeta. repeat split; try (vm_compute; reflexivity).
  vm_compute. discriminate.
Qed.

(** ** The attempt numbers *)

Section AttemptNumbers.

Local Open Scope Z_scope.

Lemma attempt_numbers_In (r j : Z) :
  In j (attempt_numbers (Some r)) <-> 1 <= j <= r.
Proof.
  unfold attempt_numbers. rewrite in_map_iff. split.
  - intros (n & <- & Hn). apply in_seq in Hn. lia.
  - intro H. exists (Z.to_nat j). split; [lia|]. apply in_seq. lia.
Qed.

Lemma attempt_numbers_split (r a : Z) :
  1 <= a <= r ->
  attempt_numbers (Some r)
  = attempt_numbers (Some (a - 1))
    ++ a :: map Z.of_nat (seq (S (Z.to_nat a)) (Z.to_nat (r - a))).
Proof.
  intro H. unfold attempt_numbers.
  replace (Z.to_nat r)
    with (Z.to_nat (a - 1) + S (Z.to_nat (r - a)))%nat by lia.
  rewrite seq_app, map_app. f_equal.
  cbn [seq map]. f_equal; [lia|].
  f_equal. f_equal. lia.
Qed.

Lemma attempt_numbers_last (r : Z) :
  1 <= r ->
  attempt_numbers (Some r) = attempt_numbers (Some (r - 1)) ++ [r].
Proof.
  intro H. rewrite (attempt_numbers_split r r) by lia.
  replace (r - r) with 0 by lia. reflexivity.
Qed.

Lemma attempt_numbers_none (r : Z) : r < 1 -> attempt_numbers (Some r) = [].
Proof.
  intro H. unfold attempt_numbers.
  replace (Z.to_nat r) with 0%nat by lia. reflexivity.
Qed.

End AttemptNumbers.

(** ** The retry loop *)

(** The proofs about the loop never look inside a page: what was extracted
    from it is replaced by variables. *)
Ltac forget_page :=
  repeat match goal with
         | |- context [extractMainContent ?d] =>
             generalize (extractMainContent d); intro
         | |- context [extractMetadata ?d ?u] =>
             generalize (extractMetadata d u); intro
         end.

Section Loop.

Variable w : world.
Variable url : jsstring.
Variable fo : ScrapingOptions.
Variable r : Z.
Hypothesis Hr : retries fo = Some r.

Local Abbreviation short := (falls_short w url fo).
Local Abbreviation mark := (track w url fo).
Local Abbreviation run := (run_attempts w url fo).

Lemma track_lastError (st : loop_state) (j : Z) :
  lastError (mark st j) = Some (attempt_error w url fo j).
Proof.
  unfold track, attempt_error.
  destruct (attempt_extract w url fo j) as [e|[c m]]; reflexivity.
Qed.

(** A turn that falls short and is not the last one goes through the
    [catch] clause and sleeps. *)
Lemma attempt_body_short (j : Z) (st : loop_state) :
  short j = true -> (j < r)%Z ->
  attempt_body w url fo j st
  = (Next (mark st j), [Request url j; Sleep (delay j)]).
Proof.
  unfold falls_short, attempt_body, track,
    attempt_extract, catch.
  rewrite Hr. cbn [num_eq num_lt].
  intros Hshort Hj.
  assert (Hlt : (j <? r)%Z = true) by (apply Z.ltb_lt; exact Hj).
  assert (Hne : (j =? r)%Z = false) by (apply Z.eqb_neq; lia).
  rewrite Hlt, Hne.
  destruct (axios_get w url fo j) as [e|html]; [reflexivity|].
  cbv zeta. revert Hshort. forget_page. intros Hshort.
  match goal with p : (document * jsstring)%type |- _ => destruct p as [d c] end.
  cbn [fst snd] in *. apply Nat.ltb_lt in Hshort.
  assert (H100 : (100 <=? length c) = false) by (apply Nat.leb_gt; exact Hshort).
  rewrite H100. cbn [andb].
  unfold keep_larger, content_length. cbn [fst snd].
  destruct (length (bestContent st) <? length c); reflexivity.
Qed.

(** A turn whose content reaches the threshold returns it. *)
Lemma attempt_body_enough (j : Z) (st : loop_state) (html : jsstring) :
  axios_get w url fo j = inr html ->
  100 <= length (snd (extractMainContent (cheerio_load w html))) ->
  attempt_body w url fo j st
  = (Return {| success := true;
               content := Some (snd (extractMainContent (cheerio_load w html)));
               error := None;
               metadata := Some (extractMetadata (cheerio_load w html) url) |},
     [Request url j]).
Proof.
  intros Hget Hlen. unfold attempt_body. rewrite Hget. cbv zeta.
  revert Hlen. forget_page. intro Hlen.
  apply Nat.leb_le in Hlen. rewrite Hlen. reflexivity.
Qed.

(** The last turn, when it falls short, ends the call the way the
    statements after the loop would. *)
Lemma run_last (st : loop_state) :
  short r = true ->
  run [r] st = (after_loop url (mark st r), [Request url r]).
Proof.
  unfold falls_short, track, attempt_extract.
  cbn [run_attempts]. unfold attempt_body, catch.
  rewrite Hr. cbn [num_eq num_lt].
  rewrite Z.ltb_irrefl, Z.eqb_refl.
  destruct (axios_get w url fo r) as [e|html]; [reflexivity|].
  cbv zeta. forget_page. intros Hshort.
  match goal with p : (document * jsstring)%type |- _ => destruct p as [d c] end.
  cbn [fst snd] in *. apply Nat.ltb_lt in Hshort.
  assert (H100 : (100 <=? length c) = false) by (apply Nat.leb_gt; exact Hshort).
  rewrite H100. cbn [andb].
  unfold keep_larger, content_length, after_loop. cbn [fst snd].
  destruct (length (bestContent st) <? length c);
    cbn [bestContent bestMetadata fst snd];
    match goal with
    | |- context [0 <? length ?x] => destruct (0 <? length x) eqn:E
    end; cbn -[getErrorMessage insufficient Nat.ltb]; rewrite ?E; reflexivity.
Qed.

(** Turns that fall short before the last one only leave their trace and
    their mark on the loop variables. *)
Lemma run_prefix (js rest : list Z) (st : loop_state) :
  Forall (fun j => short j = true /\ (j < r)%Z) js ->
  run (js ++ rest) st
  = (fst (run rest (fold_left mark js st)),
     flat_map (fun j => [Request url j; Sleep (delay j)]) js
     ++ snd (run rest (fold_left mark js st))).
Proof.
  intro H. revert st. induction H as [|j js [Hshort Hj] Hjs IH]; intro st.
  - cbn [app fold_left flat_map]. destruct (run rest st); reflexivity.
  - cbn [app run_attempts fold_left flat_map].
    rewrite (attempt_body_short j st Hshort Hj), IH.
    reflexivity.
Qed.

(** The loop variables hold the first longest content seen so far, with
    the metadata of the same attempt. *)
Lemma track_best (js : list Z) (st : loop_state) :
  let st' := fold_left mark js st in
  (bestContent st', bestMetadata st')
  = first_largest content_length (bestContent st, bestMetadata st)
      (extracted w url fo js).
Proof.
  revert st; induction js as [|j js IH]; intro st; [reflexivity|].
  cbn [fold_left]. cbv zeta in *. rewrite IH.
  unfold extracted, first_largest. cbn [flat_map].
  rewrite fold_left_app. f_equal.
  unfold track.
  destruct (attempt_extract w url fo j) as [e|cm]; cbn [fold_left];
    [reflexivity|].
  cbn [bestContent bestMetadata].
  destruct (keep_larger content_length (bestContent st, bestMetadata st) cm);
    reflexivity.
Qed.

(** A failure result of the loop carries the address and nothing else. *)
Lemma run_failure_metadata (todo : list Z) (st : loop_state)
    (res : ScrapingResult) (evs : list event) :
  run todo st = (Resolved res, evs) -> success res = false ->
  metadata res = Some (url_only url).
Proof.
  revert st evs; induction todo as [|j todo IH]; intros st evs.
  - cbn [run_attempts]. unfold after_loop.
    destruct (0 <? _); [intros [= <- _]; discriminate|].
    destruct (getErrorMessage _); [|discriminate].
    intros [= <- _] _. reflexivity.
  - cbn [run_attempts]. unfold attempt_body, catch.
    destruct (axios_get w url fo j) as [e|html]; cbv zeta.
    + destruct (run todo _) as [c evs'] eqn:Hrun.
      intros [= -> _]. eapply IH. exact Hrun.
    + forget_page.
      destruct (100 <=? _); [intros [= <- _]; discriminate|].
      destruct (_ && _); [intros [= <- _]; discriminate|].
      destruct (run todo _) as [c evs'] eqn:Hrun.
      intros [= -> _]. eapply IH. exact Hrun.
Qed.

(** Once a turn has been through the [catch] clause the call cannot
    reject any more. *)
Lemma run_resolves (todo : list Z) (st : loop_state) :
  todo <> [] \/ lastError st <> None ->
  exists res, fst (run todo st) = Resolved res.
Proof.
  revert st; induction todo as [|j todo IH]; intros st H.
  - destruct H as [H|H]; [contradiction|].
    cbn [run_attempts fst]. unfold after_loop.
    destruct (0 <? _); [eexists; reflexivity|].
    destruct (lastError st) as [e|]; [|contradiction].
    cbn [getErrorMessage]. eexists; reflexivity.
  - cbn [run_attempts]. unfold attempt_body, catch.
    destruct (axios_get w url fo j) as [e|html]; cbv zeta.
    + destruct (run todo _) as [c evs'] eqn:Hrun. cbn [fst].
      change c with (fst (c, evs')). rewrite <- Hrun.
      apply IH. right. discriminate.
    + forget_page.
      destruct (100 <=? _); [eexists; reflexivity|].
      destruct (_ && _); [eexists; reflexivity|].
      destruct (run todo _) as [c evs'] eqn:Hrun. cbn [fst].
      change c with (fst (c, evs')). rewrite <- Hrun.
      apply IH. right. discriminate.
Qed.

End Loop.

(** ** The whole call *)

Section Scrape.

Variable w : world.
Variable url : jsstring.
Variable options : ScrapingOptions.

Local Abbreviation fo := (spread DEFAULT_OPTIONS options).

Lemma scrape_valid :
  url <> [] -> isValidUrl w url = true ->
  scrapeBlogText w url options
  = run_attempts w url fo (attempt_numbers (retries fo)) (start url).
Proof.
  intros Hne Hvalid. unfold scrapeBlogText. cbv zeta. rewrite Hvalid.
  destruct url; [contradiction | reflexivity].
Qed.

Lemma scrape_invalid :
  url = [] \/ isValidUrl w url = false ->
  scrapeBlogText w url options
  = (Resolved {| success := false;
                 content := None;
                 error := Some (js "Invalid URL provided");
                 metadata := None |},
     []).
Proof.
  intros [->|Hinvalid]; [reflexivity|].
  unfold scrapeBlogText. cbv zeta. rewrite Hinvalid, orb_true_r. reflexivity.
Qed.

Lemma isValidUrl_false :
  (forall p, URL_protocol w url = Some p ->
             p <> js "http:" /\ p <> js "https:") ->
  isValidUrl w url = false.
Proof.
  intro H. unfold isValidUrl.
  destruct (URL_protocol w url) as [p|]; [|reflexivity].
  destruct (H p eq_refl) as [H1 H2]. apply orb_false_iff. split.
  - destruct (JsString.eqb p (js "http:")) eqn:E; [|reflexivity].
    apply eqb_eq in E. contradiction.
  - destruct (JsString.eqb p (js "https:")) eqn:E; [|reflexivity].
    apply eqb_eq in E. contradiction.
Qed.

Lemma turns_prefix (a : Z) :
  flat_map (fun j => [Request url j; Sleep (delay j)])
    (attempt_numbers (Some (a - 1)%Z))
  ++ [Request url a]
  = turns url a.
Proof. reflexivity. Qed.

Lemma sleeps_turns (a : Z) :
  sleeps (turns url a)
  = map (fun j => Z.min (1000 * 2 ^ (j - 1)) 5000)
      (attempt_numbers (Some (a - 1)%Z)).
Proof.
  unfold turns. generalize (attempt_numbers (Some (a - 1)%Z)) as l.
  induction l as [|j l IH]; [reflexivity|].
  cbn [flat_map app map]. unfold sleeps in *. cbn [flat_map app].
  f_equal. exact IH.
Qed.

Lemma requests_turns (a : Z) :
  (1 <= a)%Z -> requests (turns url a) = attempt_numbers (Some a).
Proof.
  intro Ha. rewrite (attempt_numbers_last a Ha).
  unfold turns. generalize (attempt_numbers (Some (a - 1)%Z)) as l.
  induction l as [|j l IH]; [reflexivity|].
  cbn [flat_map app]. unfold requests in *. cbn [flat_map app].
  f_equal. exact IH.
Qed.

Variable r : Z.
Hypothesis Hne : url <> [].
Hypothesis Hvalid : isValidUrl w url = true.
Hypothesis Hr : retries fo = Some r.

(** The call when attempt [a] is the first one to reach the threshold. *)
Lemma scrape_enough (a : Z) (html : jsstring) :
  (1 <= a <= r)%Z ->
  (forall j, (1 <= j < a)%Z -> falls_short w url fo j = true) ->
  axios_get w url fo a = inr html ->
  100 <= length (snd (extractMainContent (cheerio_load w html))) ->
  scrapeBlogText w url options
  = (Resolved
       {| success := true;
          content := Some (snd (extractMainContent (cheerio_load w html)));
          error := None;
          metadata := Some (extractMetadata (cheerio_load w html) url) |},
     turns url a).
Proof.
  intros Ha Hshort Hget Hlen.
  rewrite scrape_valid, Hr, (attempt_numbers_split r a Ha) by assumption.
  rewrite (run_prefix w url fo r Hr); [|].
  - cbn [run_attempts]. rewrite (attempt_body_enough w url fo a _ html Hget Hlen).
    cbn [fst snd]. rewrite turns_prefix. reflexivity.
  - apply Forall_forall. intros j Hj. apply attempt_numbers_In in Hj.
    split; [apply Hshort|]; lia.
Qed.

(** The call when every attempt falls short. *)
Lemma scrape_exhausted :
  (1 <= r)%Z ->
  (forall j, (1 <= j <= r)%Z -> falls_short w url fo j = true) ->
  scrapeBlogText w url options
  = (after_loop url
       (fold_left (track w url fo) (attempt_numbers (Some r)) (start url)),
     turns url r).
Proof.
  intros Hr1 Hshort.
  rewrite scrape_valid, Hr by assumption.
  rewrite (attempt_numbers_last r Hr1) at 1.
  rewrite (run_prefix w url fo r Hr); [|].
  - rewrite (run_last w url fo r Hr) by (apply Hshort; lia).
    cbn [fst snd]. rewrite turns_prefix.
    rewrite (attempt_numbers_last r Hr1), fold_left_app. reflexivity.
  - apply Forall_forall. intros j Hj. apply attempt_numbers_In in Hj.
    split; [apply Hshort|]; lia.
Qed.

End Scrape.

(** ** The statements about [scrapeBlogText] *)

(** C1: an address that is empty, or that the URL parser rejects, or whose
    scheme is neither http nor https, makes the call return the failure
    result at once: the list of its requests and sleeps is empty. *)
Theorem invalid_url_fails_at_once (w : world) (url : jsstring)
    (options : ScrapingOptions) :
  url = []
  \/ (forall p, URL_protocol w url = Some p ->
                p <> js "http:" /\ p <> js "https:") ->
  scrapeBlogText w url options
  = (Resolved {| success := false;
                 content := None;
                 error := Some (js "Invalid URL provided");
                 metadata := None |},
     []).
Proof.
  intros [H|H]; apply scrape_invalid; [left; exact H|].
  right. apply isValidUrl_false. exact H.
Qed.

Lemma invalid_url_fails_at_once_witness :
  URL_protocol Samples.offline (js "ftp://x") = Some (js "ftp:")
  /\ scrapeBlogText Samples.offline (js "ftp://x") no_options
     = (Resolved {| success := false;
                    content := None;
                    error := Some (js "Invalid URL provided");
                    metadata := None |},
        []).
Proof.
  split; [reflexivity|].
  apply (invalid_url_fails_at_once Samples.offline (js "ftp://x") no_options).
  right. intros p Hp. injection Hp as <-. split; discriminate.
Defined.

(** C2: when attempt [a] is reached (no earlier attempt got 100 characters)
    and its request succeeds with an extracted content of at least 100
    characters, the call returns success with the content and the metadata
    of that very attempt, and the requests it made are those of the
    attempts 1 to [a], the one of attempt [a] being its last effect. *)
Theorem threshold_returns_at_once (w : world) (url : jsstring)
    (options : ScrapingOptions) (r a : Z) (html : jsstring) :
  let fo := spread DEFAULT_OPTIONS options in
  let doc := cheerio_load w html in
  url <> [] -> isValidUrl w url = true ->
  retries fo = Some r ->
  (1 <= a <= r)%Z ->
  (forall j, (1 <= j < a)%Z -> falls_short w url fo j = true) ->
  axios_get w url fo a = inr html ->
  100 <= length (snd (extractMainContent doc)) ->
  exists evs,
    scrapeBlogText w url options
    = (Resolved {| success := true;
                   content := Some (snd (extractMainContent doc));
                   error := None;
                   metadata := Some (extractMetadata doc url) |},
       evs ++ [Request url a])
    /\ requests (evs ++ [Request url a]) = attempt_numbers (Some a).
Proof.
  intros fo doc Hne Hvalid Hr Ha Hshort Hget Hlen.
  exists (flat_map
            (fun j => [Request url j; Sleep (Z.min (1000 * 2 ^ (j - 1)) 5000)])
            (attempt_numbers (Some (a - 1)%Z))).
  split.
  - apply (scrape_enough w url options r Hne Hvalid Hr a html Ha Hshort Hget Hlen).
  - apply requests_turns. lia.
Qed.

Lemma threshold_returns_at_once_witness :
  exists evs,
    scrapeBlogText Samples.second_time_lucky Samples.blog no_options
    = (Resolved
         {| success := true;
            content := Some Samples.long_text;
            error := None;
            metadata :=
              Some {| Metadata.title := Some (js "A post");
                      Metadata.description := Some (js "A short description");
                      Metadata.url := Samples.blog |} |},
       evs ++ [Request Samples.blog 2])
    /\ requests (evs ++ [Request Samples.blog 2]) = [1; 2]%Z.
Proof.
  assert (H : 100 <= length (snd (extractMainContent
                                    (Samples.load_described
                                       Samples.long_text)))).
  { apply Nat.leb_le. vm_compute. reflexivity. }
  destruct (threshold_returns_at_once Samples.second_time_lucky Samples.blog
              no_options 3 2 Samples.long_text)
    as (evs & Hres & Hreq);
    [discriminate | reflexivity | reflexivity | lia | | reflexivity | exact H |].
  - intros j Hj. assert (Hj' : j = 1%Z) by lia. subst j. reflexivity.
  - exists evs. split; [|exact Hreq].
    rewrite Hres. vm_compute. reflexivity.
Defined.

(** The description of a page is read whole, and the Open Graph one only
    when the page has no other. *)
Example extractMetadata_reads_description :
  extractMetadata (Samples.load_described (js "text")) Samples.blog
  = {| Metadata.title := Some (js "A post");
       Metadata.description := Some (js "A short description");
       Metadata.url := Samples.blog |}
  /\ Metadata.description
       (extractMetadata
          [ Element "meta"
              [ ("property"%string, js "og:description");
                ("content"%string, js "x") ] [] ]
          Samples.blog)
     = Some (js "x").
Proof. split; vm_compute; reflexivity. Qed.

(** C3: when no attempt reaches the threshold, the call runs all [r]
    attempts.  With [best] the first longest content among those extracted
    (ties keep the earlier attempt) and the metadata of the same attempt:
    if [best] is not empty the call returns success with it; if it is empty
    the call returns failure with the message of the error of the last
    attempt; and a failure result means that every extracted content was
    empty. *)
Theorem best_effort_after_exhaustion (w : world) (url : jsstring)
    (options : ScrapingOptions) (r : Z) :
  let fo := spread DEFAULT_OPTIONS options in
  let best := first_largest content_length ([], url_only url) (seen w url fo r) in
  url <> [] -> isValidUrl w url = true ->
  retries fo = Some r ->
  (forall j, (1 <= j <= r)%Z -> falls_short w url fo j = true) ->
  (fst best <> [] ->
   scrapeBlogText w url options
   = (Resolved {| success := true;
                  content := Some (fst best);
                  error := None;
                  metadata := Some (snd best) |},
      turns url r))
  /\ (fst best = [] -> (1 <= r)%Z ->
      scrapeBlogText w url options
      = (Resolved {| success := false;
                     content := None;
                     error := getErrorMessage (Some (attempt_error w url fo r));
                     metadata := Some (url_only url) |},
         turns url r))
  /\ (forall res evs,
        scrapeBlogText w url options = (Resolved res, evs) ->
        success res = false ->
        Forall (fun cm => fst cm = []) (seen w url fo r))
  /\ Forall (fun cm => length (fst cm) <= length (fst best)) (seen w url fo r)
  /\ (best = ([], url_only url)
      \/ exists l1 l2,
           seen w url fo r = l1 ++ best :: l2
           /\ Forall (fun cm => length (fst cm) < length (fst best)) l1).
Proof.
  intros fo best Hne Hvalid Hr Hshort.
  pose proof (first_largest_max content_length (seen w url fo r)
                ([], url_only url)) as Hmax.
  pose proof (first_largest_first content_length (seen w url fo r)
                ([], url_only url)) as Hfirst.
  fold best in Hmax, Hfirst. unfold content_length in Hmax, Hfirst.
  assert (Hsome : (1 <= r)%Z ->
            scrapeBlogText w url options
            = (after_loop url
                 {| lastError := Some (attempt_error w url fo r);
                    bestContent := fst best;
                    bestMetadata := snd best |},
               turns url r)).
  { intro Hr1. rewrite (scrape_exhausted w url options r Hne Hvalid Hr Hr1 Hshort).
    change (spread DEFAULT_OPTIONS options) with fo.
    pose proof (track_best w url fo (attempt_numbers (Some r)) (start url))
      as Hbest.
    cbv zeta in Hbest. cbn [start bestContent bestMetadata] in Hbest.
    change (first_largest content_length ([], url_only url)
              (extracted w url fo (attempt_numbers (Some r))))
      with best in Hbest.
    assert (Herr : lastError
                     (fold_left (track w url fo) (attempt_numbers (Some r))
                        (start url))
                   = Some (attempt_error w url fo r)).
    { rewrite (attempt_numbers_last r Hr1), fold_left_app. cbn [fold_left].
      apply track_lastError. }
    destruct (fold_left (track w url fo) (attempt_numbers (Some r)) (start url))
      as [e bc bm].
    cbn [lastError bestContent bestMetadata] in Herr, Hbest.
    rewrite Herr, <- Hbest. reflexivity. }
  assert (Hnone : (r < 1)%Z -> best = ([], url_only url)).
  { intro Hr0. unfold best, seen. rewrite (attempt_numbers_none r Hr0).
    reflexivity. }
  assert (Hfull : fst best <> [] ->
            scrapeBlogText w url options
            = (Resolved {| success := true;
                           content := Some (fst best);
                           error := None;
                           metadata := Some (snd best) |},
               turns url r)).
  { intro Hbest.
    destruct (Z.lt_ge_cases r 1) as [Hr0|Hr1].
    - rewrite (Hnone Hr0) in Hbest. contradiction Hbest. reflexivity.
    - rewrite (Hsome Hr1). unfold after_loop. cbn [bestContent bestMetadata].
      destruct (fst best) as [|c s]; [contradiction Hbest; reflexivity|].
      reflexivity. }
  split; [exact Hfull|]. split; [|split; [|split; [exact Hmax | exact Hfirst]]].
  - intros Hbest Hr1. rewrite (Hsome Hr1). unfold after_loop.
    cbn [bestContent bestMetadata lastError]. rewrite Hbest. reflexivity.
  - intros res evs Hres Hfail.
    destruct (fst best) as [|c s] eqn:Hbest.
    + revert Hmax. apply Forall_impl. intros [c m] Hc. cbn [fst length] in *.
      destruct c; [reflexivity | cbn [length] in Hc; lia].
    + rewrite Hfull in Hres by discriminate.
      injection Hres as <- _. discriminate Hfail.
Qed.

Lemma best_effort_after_exhaustion_witness :
  fst (scrapeBlogText Samples.meagre Samples.blog no_options)
  = Resolved {| success := true;
                content := Some (js "a little more text");
                error := None;
                metadata := Some {| Metadata.title := Some [];
                                    Metadata.description := Some [];
                                    Metadata.url := Samples.blog |} |}.
Proof.
  assert (Hshort : forall j, (1 <= j <= 3)%Z ->
            falls_short Samples.meagre Samples.blog
              (spread DEFAULT_OPTIONS no_options) j = true).
  { intros j Hj. assert (Hj' : j = 1%Z \/ j = 2%Z \/ j = 3%Z) by lia.
    destruct Hj' as [->|[->| ->]]; vm_compute; reflexivity. }
  assert (Hne : Samples.blog <> []) by discriminate.
  rewrite (proj1 (best_effort_after_exhaustion Samples.meagre Samples.blog
                    no_options 3 Hne eq_refl eq_refl Hshort)).
  - vm_compute. reflexivity.
  - vm_compute. discriminate.
Defined.

(** C7, as stated, fails: the result for an address that does not pass
    validation is a failure without metadata. *)
Lemma invalid_url_failure_has_no_metadata :
  ~ (forall res evs,
       scrapeBlogText Samples.offline (js "ftp://x") no_options
       = (Resolved res, evs) ->
       success res = false ->
       exists md, metadata res = Some md /\ Metadata.url md = js "ftp://x").
Proof.
  intro H.
  destruct (H _ _ eq_refl eq_refl) as (md & Hmd & _).
  discriminate Hmd.
Qed.

(** C7, amended: a failure result returned for an address that passed
    validation carries metadata that consists of the address; the failure
    result for an address that did not pass carries no metadata. *)
Theorem failure_metadata (w : world) (url : jsstring)
    (options : ScrapingOptions) (res : ScrapingResult) (evs : list event) :
  scrapeBlogText w url options = (Resolved res, evs) ->
  success res = false ->
  metadata res
  = if match url with [] => true | _ => false end || negb (isValidUrl w url)
    then None
    else Some {| Metadata.title := None;
                 Metadata.description := None;
                 Metadata.url := url |}.
Proof.
  intros Hres Hfail.
  destruct url as [|c s] eqn:Hurl.
  - rewrite scrape_invalid in Hres by (left; reflexivity).
    injection Hres as <- _. reflexivity.
  - rewrite <- Hurl in *. cbn [orb].
    destruct (isValidUrl w url) eqn:Hvalid; cbn [negb].
    + rewrite scrape_valid in Hres by (subst; auto; discriminate).
      exact (run_failure_metadata _ _ _ _ _ _ _ Hres Hfail).
    + rewrite scrape_invalid in Hres by (right; exact Hvalid).
      injection Hres as <- _. reflexivity.
Qed.

Lemma failure_metadata_witness :
  exists res evs,
    scrapeBlogText Samples.offline Samples.blog no_options = (Resolved res, evs)
    /\ success res = false
    /\ metadata res = Some (url_only Samples.blog).
Proof.
  destruct (scrapeBlogText Samples.offline Samples.blog no_options)
    as [[res|] evs] eqn:H.
  - assert (Hfail : success res = false).
    { vm_compute in H. injection H as <- _. reflexivity. }
    exists res, evs. split; [reflexivity|]. split; [exact Hfail|].
    rewrite (failure_metadata _ _ _ _ _ H Hfail). reflexivity.
  - vm_compute in H. discriminate H.
Defined.

(** C8: when the attempts before [a] fall short and attempt [a] is the
    last one or reaches the threshold, the effects of the call are, in
    order: for each attempt [j] before [a] its request followed by a sleep
    of [min (1000 * 2^(j-1)) 5000] milliseconds, then the request of
    attempt [a], with no sleep after it. *)
Theorem backoff_schedule (w : world) (url : jsstring)
    (options : ScrapingOptions) (r a : Z) :
  let fo := spread DEFAULT_OPTIONS options in
  url <> [] -> isValidUrl w url = true ->
  retries fo = Some r ->
  (1 <= a <= r)%Z ->
  (forall j, (1 <= j < a)%Z -> falls_short w url fo j = true) ->
  a = r \/ falls_short w url fo a = false ->
  snd (scrapeBlogText w url options)
  = flat_map
      (fun j => [Request url j; Sleep (Z.min (1000 * 2 ^ (j - 1)) 5000)])
      (attempt_numbers (Some (a - 1)%Z))
    ++ [Request url a]
  /\ sleeps (snd (scrapeBlogText w url options))
     = map (fun j => Z.min (1000 * 2 ^ (j - 1)) 5000)
         (attempt_numbers (Some (a - 1)%Z)).
Proof.
  intros fo Hne Hvalid Hr Ha Hshort Hlast.
  assert (Htrace : snd (scrapeBlogText w url options) = turns url a).
  { destruct (falls_short w url fo a) eqn:Hfa.
    - destruct Hlast as [->|Hlast]; [|discriminate Hlast].
      rewrite (scrape_exhausted w url options r Hne Hvalid Hr); [reflexivity | lia |].
      intros j Hj. destruct (Z.eq_dec j r) as [->|Hjr]; [exact Hfa|].
      apply Hshort. lia.
    - unfold falls_short, attempt_extract in Hfa.
      destruct (axios_get w url fo a) as [e|html] eqn:Hget; [discriminate Hfa|].
      cbv zeta in Hfa. apply Nat.ltb_ge in Hfa.
      rewrite (scrape_enough w url options r Hne Hvalid Hr a html Ha Hshort Hget Hfa). reflexivity. }
  rewrite Htrace. split; [reflexivity | apply sleeps_turns].
Qed.

Lemma backoff_schedule_witness :
  snd (scrapeBlogText Samples.third_time_lucky Samples.blog no_options)
  = [Request Samples.blog 1; Sleep 1000;
     Request Samples.blog 2; Sleep 2000;
     Request Samples.blog 3]
  /\ sleeps (snd (scrapeBlogText Samples.third_time_lucky Samples.blog
                    no_options))
     = [1000; 2000]%Z.
Proof.
  assert (Hshort : forall j, (1 <= j < 3)%Z ->
            falls_short Samples.third_time_lucky Samples.blog
              (spread DEFAULT_OPTIONS no_options) j = true).
  { intros j Hj. assert (Hj' : j = 1%Z \/ j = 2%Z) by lia.
    destruct Hj' as [->| ->]; reflexivity. }
  assert (Hne : Samples.blog <> []) by discriminate.
  assert (Ha : (1 <= 3 <= 3)%Z) by lia.
  destruct (backoff_schedule Samples.third_time_lucky Samples.blog
              no_options 3 3 Hne eq_refl eq_refl Ha Hshort
              (or_introl eq_refl)) as [Htrace Hsleeps].
  split; [rewrite Htrace | rewrite Hsleeps]; reflexivity.
Defined.

(** The delay doubles from one second and stops growing at five. *)
Example delay_values :
  map delay [1; 2; 3; 4; 5; 100]%Z = [1000; 2000; 4000; 5000; 5000; 5000]%Z.
Proof. reflexivity. Qed.

(** ** The hash of the sample generator *)

Section Hash.

Local Open Scope Z_scope.

Lemma toInt32_repr (z : Z) : exists q, toInt32 z = z + q * 2 ^ 32.
Proof.
  exists (- ((z + 2 ^ 31) / 2 ^ 32)). unfold toInt32.
  pose proof (Z_div_mod_eq_full (z + 2 ^ 31) (2 ^ 32)). lia.
Qed.

Lemma toInt32_shift (z q : Z) : toInt32 (z + q * 2 ^ 32) = toInt32 z.
Proof.
  unfold toInt32.
  replace (z + q * 2 ^ 32 + 2 ^ 31) with (z + 2 ^ 31 + q * 2 ^ 32) by lia.
  rewrite Z_mod_plus_full. reflexivity.
Qed.

Lemma toInt32_range (z : Z) : - 2 ^ 31 <= toInt32 z < 2 ^ 31.
Proof.
  unfold toInt32.
  pose proof (Z.mod_pos_bound (z + 2 ^ 31) (2 ^ 32) ltac:(lia)). lia.
Qed.

Lemma hash_step_poly (a : Z) (b : N) :
  hash_step a b = toInt32 (31 * a + Z.of_N b).
Proof.
  unfold hash_step, band, shl.
  change (toInt32 4294967295) with (-1). rewrite Z.land_m1_r.
  rewrite Z.shiftl_mul_pow2 by lia. change (2 ^ 5) with 32.
  destruct (toInt32_repr a) as (q0 & ->).
  destruct (toInt32_repr ((a + q0 * 2 ^ 32) * 32)) as (q1 & ->).
  replace ((a + q0 * 2 ^ 32) * 32 + q1 * 2 ^ 32 - a + Z.of_N b)
    with (31 * a + Z.of_N b + (32 * q0 + q1) * 2 ^ 32) by lia.
  apply toInt32_shift.
Qed.

Lemma hash_range_from (url : jsstring) (a : Z) :
  - 2 ^ 31 <= a < 2 ^ 31 ->
  - 2 ^ 31 <= fold_left hash_step url a < 2 ^ 31.
Proof.
  revert a; induction url as [|x s IH]; intros a Ha; [exact Ha|].
  cbn [fold_left]. apply IH. rewrite hash_step_poly. apply toInt32_range.
Qed.

End Hash.

(** ** [scrapeWithFallback] *)

Lemma generateSampleContent_defined (url : jsstring) :
  exists s, generateSampleContent url = Some s /\ In s samples.
Proof.
  unfold generateSampleContent.
  change (length samples) with 3.
  set (n := Z.to_nat (Z.rem (Z.abs (hash url)) (Z.of_nat 3))).
  assert (Hn : n < length samples).
  { change (length samples) with 3. unfold n.
    pose proof (Z.rem_bound_pos (Z.abs (hash url)) 3 (Z.abs_nonneg _)
                  ltac:(lia)).
    change (Z.of_nat 3) with 3%Z. lia. }
  destruct (nth_error samples n) as [s|] eqn:Hs.
  - exists s. split; [reflexivity|]. eapply nth_error_In. exact Hs.
  - apply nth_error_None in Hs. lia.
Qed.

Lemma scrape_default_resolves (w : world) (url : jsstring) :
  exists res, fst (scrapeBlogText w url no_options) = Resolved res.
Proof.
  destruct url as [|c s] eqn:Hurl.
  - eexists. reflexivity.
  - rewrite <- Hurl. destruct (isValidUrl w url) eqn:Hvalid.
    + rewrite scrape_valid by (subst; auto; discriminate).
      apply run_resolves. left. discriminate.
    + rewrite scrape_invalid by (right; exact Hvalid). eexists. reflexivity.
Qed.

(** C10: the fallback call always resolves with a success result.  When
    the underlying call fails, the content is the sample at the index that
    the hash of the address selects, the absolute value of the hash modulo
    3, where the hash is the 31-polynomial of the code units of the address
    wrapped to 32 bits; it is one of the three fixed texts, and the
    metadata is the fixed sample metadata with the address.  When the
    underlying call succeeds, its result is passed on. *)
Theorem scrapeWithFallback_never_fails (w : world) (url : jsstring) :
  exists res,
    fst (scrapeWithFallback w url) = Resolved res
    /\ success res = true
    /\ (forall r0,
          fst (scrapeBlogText w url no_options) = Resolved r0 ->
          success r0 = false ->
          content res
          = nth_error samples (Z.to_nat (Z.rem (Z.abs (hash url)) 3))
          /\ hash url
             = fold_left (fun a b => toInt32 (31 * a + Z.of_N b)) url 0%Z
          /\ (exists s, content res = Some s /\ In s samples)
          /\ metadata res
             = Some {| Metadata.title := Some (js "Sample Blog Post");
                       Metadata.description :=
                         Some (js "This is sample content for demonstration purposes.");
                       Metadata.url := url |})
    /\ (forall r0,
          fst (scrapeBlogText w url no_options) = Resolved r0 ->
          success r0 = true ->
          res = r0).
Proof.
  destruct (scrape_default_resolves w url) as [r0 Hr0].
  unfold scrapeWithFallback.
  destruct (scrapeBlogText w url no_options) as [c evs].
  cbn [fst] in Hr0. subst c.
  destruct (success r0) eqn:Hs; cbn [negb fst].
  - exists r0. split; [reflexivity|]. split; [exact Hs|]. split.
    + intros r1 Heq Hf. injection Heq as <-. congruence.
    + intros r1 Heq _. injection Heq as <-. reflexivity.
  - eexists. split; [reflexivity|]. cbn [success content metadata].
    split; [reflexivity|]. split.
    + intros r1 _ _. split; [reflexivity|]. split; [|split].
      * unfold hash. generalize 0%Z as a.
        induction url as [|x s IH]; intro a; [reflexivity|].
        cbn [fold_left]. rewrite hash_step_poly. apply IH.
      * apply generateSampleContent_defined.
      * reflexivity.
    + intros r1 Heq Ht. injection Heq as <-. congruence.
Qed.

(** The sample that an invalid address gets, and another address that
    gets another sample. *)
Example fallback_sample :
  generateSampleContent (js "ftp://x") = nth_error samples 2
  /\ generateSampleContent (js "not a url") = nth_error samples 1
  /\ exists res,
       fst (scrapeWithFallback Samples.offline (js "ftp://x")) = Resolved res
       /\ success res = true
       /\ content res = nth_error samples 2.
Proof.
  split; [vm_compute; reflexivity|]. split; [vm_compute; reflexivity|].
  eexists. split; [reflexivity|]. split; vm_compute; reflexivity.
Qed.

(** ** The shape of cleaned text *)

Section CleanShape.

Local Abbreviation collapse := (replace_runs is_space SPACE).
Local Abbreviation solid := (fun c : N => negb (is_space c)).

Lemma collapse_solid (b : bool) (s : jsstring) :
  filter solid (collapse b s) = filter solid s.
Proof.
  revert b; induction s as [|c s IH]; intro b; [reflexivity|].
  cbn [replace_runs filter]. destruct (is_space c) eqn:Hc; cbn [negb].
  - destruct b; [apply IH|]. cbn [filter].
    change (is_space SPACE) with true. cbn [negb]. apply IH.
  - cbn [filter]. rewrite Hc. cbn [negb]. f_equal. apply IH.
Qed.

Lemma trimStart_solid (s : jsstring) :
  filter solid (trimStart s) = filter solid s.
Proof.
  induction s as [|c s IH]; [reflexivity|].
  cbn [trimStart]. destruct (is_space c) eqn:Hc; [|reflexivity].
  cbn [filter]. rewrite Hc. exact IH.
Qed.

Lemma trim_solid (s : jsstring) : filter solid (trim s) = filter solid s.
Proof.
  unfold trim, trimEnd.
  rewrite filter_rev, trimStart_solid, filter_rev, rev_involutive.
  apply trimStart_solid.
Qed.

Lemma collapse_length (b : bool) (s : jsstring) :
  length (collapse b s) <= length s.
Proof.
  revert b; induction s as [|c s IH]; intro b; [constructor|].
  cbn [replace_runs]. destruct (is_space c); [destruct b|]; cbn [length];
    [specialize (IH true) | specialize (IH true) | specialize (IH false)]; lia.
Qed.

Lemma trimStart_length (s : jsstring) : length (trimStart s) <= length s.
Proof.
  induction s as [|c s IH]; [constructor|].
  cbn [trimStart]. destruct (is_space c); cbn [length]; lia.
Qed.

Lemma trim_length (s : jsstring) : length (trim s) <= length s.
Proof.
  unfold trim, trimEnd. rewrite length_rev.
  etransitivity; [apply trimStart_length|]. rewrite length_rev.
  apply trimStart_length.
Qed.

(** [trimStart] cuts a prefix of whitespace off. *)
Lemma trimStart_suffix (s : jsstring) :
  exists pre, s = pre ++ trimStart s /\ forallb is_space pre = true.
Proof.
  induction s as [|c s (pre & Hs & Hpre)]; [exists []; split; reflexivity|].
  cbn [trimStart]. destruct (is_space c) eqn:Hc.
  - exists (c :: pre). cbn [app forallb]. rewrite Hc, Hpre, <- Hs.
    split; reflexivity.
  - exists []. split; reflexivity.
Qed.

Lemma trimStart_starts_clean (s : jsstring) :
  starts_clean (trimStart s) = true.
Proof.
  induction s as [|c s IH]; [reflexivity|].
  cbn [trimStart]. destruct (is_space c) eqn:Hc; [exact IH|].
  cbn [starts_clean]. rewrite Hc. reflexivity.
Qed.

Lemma trimStart_id (s : jsstring) : starts_clean s = true -> trimStart s = s.
Proof.
  destruct s as [|c s]; [reflexivity|]. cbn [starts_clean trimStart].
  destruct (is_space c); [discriminate | reflexivity].
Qed.

Lemma starts_clean_prefix (s t : jsstring) :
  starts_clean (s ++ t) = true -> starts_clean s = true.
Proof. destruct s; [reflexivity | exact (fun H => H)]. Qed.

Lemma trim_starts_clean (s : jsstring) : starts_clean (trim s) = true.
Proof.
  unfold trim, trimEnd.
  destruct (trimStart_suffix (rev (trimStart s))) as (pre & Hs & _).
  apply (starts_clean_prefix _ (rev pre)).
  rewrite <- rev_app_distr, <- Hs, rev_involutive.
  apply trimStart_starts_clean.
Qed.

Lemma trim_ends_clean (s : jsstring) : starts_clean (rev (trim s)) = true.
Proof.
  unfold trim, trimEnd. rewrite rev_involutive. apply trimStart_starts_clean.
Qed.

Lemma trim_id (s : jsstring) :
  starts_clean s = true -> starts_clean (rev s) = true -> trim s = s.
Proof.
  intros H1 H2. unfold trim, trimEnd.
  rewrite (trimStart_id s H1), (trimStart_id (rev s) H2). apply rev_involutive.
Qed.

(** [spaced], said with the two neighbours in hand. *)
Lemma spaced_spec (s : jsstring) :
  spaced s = true
  <-> forall l1 c d l2,
        s = l1 ++ c :: d :: l2 -> is_space c && is_space d = false.
Proof.
  induction s as [|c s IH]; [split; [intros _ [|? ?] ? ? ? [=] | reflexivity]|].
  destruct s as [|d s].
  - split; [|reflexivity]. intros _ [|? [|? ?]] ? ? ? [=].
  - change (spaced (c :: d :: s))
      with (negb (is_space c && is_space d) && spaced (d :: s)).
    rewrite andb_true_iff, negb_true_iff, IH. split.
    + intros [Hcd Hs] [|x l1] c' d' l2 Heq; cbn [app] in Heq.
      * injection Heq as -> -> _. exact Hcd.
      * injection Heq as _ Hrest. apply (Hs l1 c' d' l2). exact Hrest.
    + intro H. split; [apply (H [] c d s); reflexivity|].
      intros l1 c' d' l2 Heq. apply (H (c :: l1) c' d' l2).
      rewrite Heq. reflexivity.
Qed.

Lemma spaced_rev (s : jsstring) : spaced s = true -> spaced (rev s) = true.
Proof.
  rewrite !spaced_spec. intros H l1 c d l2 Heq.
  rewrite andb_comm. apply (H (rev l2) d c (rev l1)).
  rewrite <- (rev_involutive s), Heq, rev_app_distr. cbn [rev].
  rewrite <- !app_assoc. reflexivity.
Qed.

Lemma spaced_suffix (pre s : jsstring) :
  spaced (pre ++ s) = true -> spaced s = true.
Proof.
  rewrite !spaced_spec. intros H l1 c d l2 Heq.
  apply (H (pre ++ l1) c d l2). rewrite Heq, app_assoc. reflexivity.
Qed.

Lemma trimStart_spaced (s : jsstring) :
  spaced s = true -> spaced (trimStart s) = true.
Proof.
  destruct (trimStart_suffix s) as (pre & Hs & _).
  intro H. rewrite Hs in H. exact (spaced_suffix _ _ H).
Qed.

Lemma trim_spaced (s : jsstring) : spaced s = true -> spaced (trim s) = true.
Proof.
  intro H. unfold trim, trimEnd.
  apply spaced_rev, trimStart_spaced, spaced_rev, trimStart_spaced, H.
Qed.

Lemma collapse_spaced (b : bool) (s : jsstring) :
  spaced (collapse b s) = true
  /\ (b = true -> starts_clean (collapse b s) = true).
Proof.
  revert b; induction s as [|c s IH]; intro b; [split; reflexivity|].
  cbn [replace_runs]. destruct (is_space c) eqn:Hc.
  - destruct b; [apply IH|]. split; [|discriminate].
    destruct (IH true) as [Hs Hh]. specialize (Hh eq_refl).
    destruct (collapse true s) as [|d t] eqn:Ht; [reflexivity|].
    change (spaced (SPACE :: d :: t))
      with (negb (is_space SPACE && is_space d) && spaced (d :: t)).
    cbn [starts_clean] in Hh. apply negb_true_iff in Hh.
    rewrite Hh, andb_false_r, Hs. reflexivity.
  - destruct (IH false) as [Hs _]. split.
    + destruct (collapse false s) as [|d t] eqn:Ht; [reflexivity|].
      change (spaced (c :: d :: t))
        with (negb (is_space c && is_space d) && spaced (d :: t)).
      rewrite Hc, Hs. reflexivity.
    + intros _. cbn [starts_clean]. rewrite Hc. reflexivity.
Qed.

Lemma collapse_id (b : bool) (s : jsstring) :
  forallb (fun c => negb (is_space c) || (c =? SPACE)%N) s = true ->
  spaced s = true ->
  (b = true -> starts_clean s = true) ->
  collapse b s = s.
Proof.
  revert b; induction s as [|c s IH]; intros b Hall Hsp Hb; [reflexivity|].
  cbn [forallb] in Hall. apply andb_true_iff in Hall. destruct Hall as [Hc Hall].
  assert (Hs : spaced s = true).
  { apply (spaced_suffix [c] s). exact Hsp. }
  cbn [replace_runs]. destruct (is_space c) eqn:Hsc.
  - destruct b.
    + specialize (Hb eq_refl). cbn [starts_clean] in Hb. rewrite Hsc in Hb.
      discriminate Hb.
    + cbn [negb orb] in Hc. apply N.eqb_eq in Hc. subst c. f_equal.
      apply (IH true Hall Hs). intros _.
      destruct s as [|d s]; [reflexivity|].
      change (spaced (SPACE :: d :: s))
        with (negb (is_space SPACE && is_space d) && spaced (d :: s)) in Hsp.
      apply andb_true_iff in Hsp. destruct Hsp as [Hd _].
      cbn [starts_clean]. rewrite Hsc in Hd. exact Hd.
  - f_equal. apply (IH false Hall Hs). discriminate.
Qed.

Lemma forallb_Forall (P : N -> bool) (s : jsstring) :
  forallb P s = true <-> Forall (fun c => P c = true) s.
Proof.
  rewrite forallb_forall, Forall_forall. reflexivity.
Qed.

End CleanShape.

Lemma clean_cleanText (text : jsstring) : clean (cleanText text) = true.
Proof.
  rewrite cleanText_newline_pass_idle. unfold clean.
  rewrite trim_starts_clean, trim_ends_clean, !andb_true_r.
  rewrite (trim_spaced _ (proj1 (collapse_spaced false text))), andb_true_r.
  apply forallb_Forall. apply trim_Forall.
  generalize (replace_space_single false text). apply Forall_impl.
  intros c Hc. destruct (is_space c); [|reflexivity].
  rewrite (Hc eq_refl). reflexivity.
Qed.

Lemma cleanText_of_clean (t : jsstring) : clean t = true -> cleanText t = t.
Proof.
  intro Ht. unfold clean in Ht.
  apply andb_true_iff in Ht. destruct Ht as [Ht Hend].
  apply andb_true_iff in Ht. destruct Ht as [Ht Hstart].
  apply andb_true_iff in Ht. destruct Ht as [Hall Hsp].
  rewrite cleanText_newline_pass_idle.
  rewrite (collapse_id false t Hall Hsp) by discriminate.
  apply trim_id; assumption.
Qed.

Lemma cleanText_solid (text : jsstring) :
  filter (fun c => negb (is_space c)) (cleanText text)
  = filter (fun c => negb (is_space c)) text.
Proof.
  rewrite cleanText_newline_pass_idle, trim_solid. apply collapse_solid.
Qed.

Lemma solid_none (s : jsstring) :
  filter (fun c => negb (is_space c)) s = [] <-> forallb is_space s = true.
Proof.
  induction s as [|c s IH]; [split; reflexivity|].
  cbn [filter forallb]. destruct (is_space c); cbn [negb andb].
  - exact IH.
  - split; discriminate.
Qed.

Lemma cleanText_nil (text : jsstring) :
  cleanText text = [] -> forallb is_space text = true.
Proof.
  intro H. pose proof (cleanText_solid text) as Hsolid.
  rewrite H in Hsolid. apply solid_none. symmetry. exact Hsolid.
Qed.

(** X1: every output of [cleanText] is clean: its only whitespace is the
    space, never two in a row, and none at either end. *)
Theorem cleanText_clean (text : jsstring) :
  let out := cleanText text in
  Forall (fun c => is_space c = true -> c = SPACE) out
  /\ (forall l1 c d l2,
        out = l1 ++ c :: d :: l2 -> is_space c && is_space d = false)
  /\ starts_clean out = true
  /\ starts_clean (rev out) = true.
Proof.
  cbv zeta. pose proof (clean_cleanText text) as H. unfold clean in H.
  apply andb_true_iff in H. destruct H as [H Hend].
  apply andb_true_iff in H. destruct H as [H Hstart].
  apply andb_true_iff in H. destruct H as [_ Hsp].
  split; [apply cleanText_spaces_only|].
  split; [apply spaced_spec; exact Hsp|]. split; assumption.
Qed.

(** X2: the texts that [cleanText] leaves as they are are exactly the clean
    ones; in particular cleaning twice is cleaning once. *)
Theorem cleanText_fixed_points (s : jsstring) :
  (cleanText s = s <-> clean s = true)
  /\ cleanText (cleanText s) = cleanText s.
Proof.
  split; [split|].
  - intro H. rewrite <- H. apply clean_cleanText.
  - apply cleanText_of_clean.
  - apply cleanText_of_clean, clean_cleanText.
Qed.

(** X3: [cleanText] keeps every character that is not whitespace, in
    order, and never makes the text longer. *)
Theorem cleanText_keeps_solid (text : jsstring) :
  filter (fun c => negb (is_space c)) (cleanText text)
  = filter (fun c => negb (is_space c)) text
  /\ length (cleanText text) <= length text.
Proof.
  split; [apply cleanText_solid|].
  rewrite cleanText_newline_pass_idle.
  etransitivity; [apply trim_length | apply collapse_length].
Qed.

(** X4: the cleaned text is empty exactly when the text holds nothing but
    whitespace. *)
Theorem cleanText_empty_iff (text : jsstring) :
  cleanText text = [] <-> forallb is_space text = true.
Proof.
  pose proof (cleanText_solid text) as Hsolid.
  split.
  - intro H. rewrite H in Hsolid. apply solid_none. symmetry. exact Hsolid.
  - intro H. apply solid_none in H. rewrite H in Hsolid.
    apply solid_none in Hsolid.
    pose proof (clean_cleanText text) as Hclean. unfold clean in Hclean.
    destruct (cleanText text) as [|c s]; [reflexivity|].
    cbn [forallb] in Hsolid. apply andb_true_iff in Hsolid.
    destruct Hsolid as [Hc _].
    apply andb_true_iff in Hclean. destruct Hclean as [Hclean _].
    apply andb_true_iff in Hclean. destruct Hclean as [_ Hstart].
    cbn [starts_clean] in Hstart. rewrite Hc in Hstart. discriminate Hstart.
Qed.

(** ** What noise removal leaves *)

Section NoNoise.

Lemma flat_map_none {A B : Type} (f : A -> list B) (l : list A) :
  Forall (fun x => f x = []) l -> flat_map f l = [].
Proof.
  induction 1 as [|x l Hx Hl IH]; [reflexivity|].
  cbn [flat_map]. rewrite Hx, IH. reflexivity.
Qed.

Lemma flat_map_flat_map_none (f g : node -> list node) (l : list node) :
  Forall (fun n => flat_map f (g n) = []) l ->
  flat_map f (flat_map g l) = [].
Proof.
  induction 1 as [|x l Hx Hl IH]; [reflexivity|].
  cbn [flat_map]. rewrite flat_map_app, Hx, IH. reflexivity.
Qed.

Lemma select_remove_node (sel : selector) (n : node) :
  flat_map (select_node sel) (remove_node sel n) = [].
Proof.
  induction n as [data|data|name attribs children IH] using node_induction;
    try reflexivity.
  cbn [remove_node]. destruct (matches sel name attribs) eqn:Hm;
    [reflexivity|].
  cbn [flat_map select_node]. rewrite Hm, app_nil_r. cbn [app].
  apply flat_map_flat_map_none. exact IH.
Qed.

Lemma select_remove (sel : selector) (doc : document) :
  select sel (remove sel doc) = [].
Proof.
  apply flat_map_flat_map_none, Forall_forall. intros n _.
  apply select_remove_node.
Qed.

Lemma remove_all_member (sel : selector) (sels : list selector)
    (doc : document) :
  In sel sels ->
  exists d, fold_left (fun d s => remove s d) sels doc = remove sel d.
Proof.
  intro Hin. apply in_split in Hin. destruct Hin as (l1 & l2 & ->).
  rewrite fold_left_app. cbn [fold_left]. rewrite remove_all_swap.
  eexists. reflexivity.
Qed.

End NoNoise.

(** X5: once the noise is stripped, no selector of the noise table matches
    anything in the document. *)
Theorem strip_noise_leaves_no_noise (doc : document) (sel : selector) :
  In sel NOISE_SELECTORS -> select sel (strip_noise doc) = [].
Proof.
  intro Hin. unfold strip_noise.
  destruct (remove_all_member sel NOISE_SELECTORS doc Hin) as (d & ->).
  apply select_remove.
Qed.

Lemma strip_noise_leaves_no_noise_witness :
  select [Class "menu"] Samples.long_article <> []
  /\ select [Class "menu"] (strip_noise Samples.long_article) = [].
Proof.
  split; [vm_compute; discriminate|].
  apply strip_noise_leaves_no_noise.
  unfold NOISE_SELECTORS. do 10 right. left. reflexivity.
Defined.

(** ** What the extractor returns *)

(** X6: the extracted text is always a cleaned text: cleaning it again
    changes nothing. *)
Theorem extractMainContent_cleaned (doc : document) :
  cleanText (snd (extractMainContent doc)) = snd (extractMainContent doc).
Proof.
  assert (Hbest : clean (fst (cascade ARTICLE_SELECTORS (strip_noise doc)))
                  = true).
  { rewrite cascade_first_largest. cbv zeta. cbn [fst].
    pose proof (first_largest_in (@length N)
                  (candidates ARTICLE_SELECTORS (strip_noise doc)) []) as Hin.
    remember (first_largest (@length N) []
                (candidates ARTICLE_SELECTORS (strip_noise doc))) as best
      eqn:Hb.
    clear Hb. destruct Hin as [Heq|Hin]; [rewrite <- Heq; reflexivity|].
    unfold candidates in Hin. apply in_flat_map in Hin.
    destruct Hin as (sel & _ & Hin). apply in_map_iff in Hin.
    destruct Hin as (e & <- & _). apply clean_cleanText. }
  apply cleanText_of_clean. unfold extractMainContent.
  destruct (1000 <? _); [exact Hbest|]. cbn [snd].
  repeat match goal with
         | |- context [if ?b then _ else _] => destruct b
         end; auto using clean_cleanText.
Qed.

(** X7: a result of fewer than 50 characters is never shorter than the
    cleaned text of the body; in particular an empty result means that the
    body, the noise left aside, holds nothing but whitespace. *)
Theorem short_result_covers_body (doc : document) :
  let result := snd (extractMainContent doc) in
  let bodyText := text (select [Tag "body"] (strip_noise doc)) in
  (length result < 50 -> length (cleanText bodyText) <= length result)
  /\ (result = [] -> forallb is_space bodyText = true).
Proof.
  cbv zeta.
  assert (H : length (snd (extractMainContent doc)) < 50 ->
              length (cleanText (text (select [Tag "body"] (strip_noise doc))))
              <= length (snd (extractMainContent doc))).
  { unfold extractMainContent.
    destruct (Nat.ltb_spec 1000
                (length (fst (cascade ARTICLE_SELECTORS (strip_noise doc)))))
      as [Hlong|_]; [cbn [snd]; lia|].
    cbv zeta. cbn [snd].
    match goal with
    | |- context [if length ?b <? 50 then _ else _] =>
        destruct (Nat.ltb_spec (length b) 50) as [H50|H50]; [|lia];
        match goal with
        | |- context [if length b <? length ?c then _ else _] =>
            destruct (Nat.ltb_spec (length b) (length c)); lia
        end
    end. }
  split; [exact H|].
  intro Hempty. apply cleanText_nil.
  rewrite Hempty in H. cbn [length] in H.
  specialize (H ltac:(lia)).
  destruct (cleanText _); [reflexivity | cbn [length] in H; lia].
Qed.

(** ** One turn of the loop, case by case *)

Section Turn.

Variable w : world.
Variable url : jsstring.
Variable fo : ScrapingOptions.

Local Abbreviation sleep_if j :=
  (if num_lt j (retries fo) then [Sleep (delay j)] else []).

(** The turn of attempt [j] in terms of what the attempt extracts. *)
Lemma attempt_body_cases (j : Z) (st : loop_state) :
  match attempt_extract w url fo j with
  | inl e =>
      attempt_body w url fo j st
      = (Next (track w url fo st j), Request url j :: sleep_if j)
  | inr (c, m) =>
      let st' := track w url fo st j in
      if 100 <=? length c
      then attempt_body w url fo j st
           = (Return {| success := true;
                        content := Some c;
                        error := None;
                        metadata := Some m |},
              [Request url j])
      else if num_eq j (retries fo) && (0 <? length (bestContent st'))
      then attempt_body w url fo j st
           = (Return {| success := true;
                        content := Some (bestContent st');
                        error := None;
                        metadata := Some (bestMetadata st') |},
              [Request url j])
      else attempt_body w url fo j st
           = (Next st', Request url j :: sleep_if j)
  end.
Proof.
  unfold attempt_body, track, attempt_extract, catch.
  destruct (axios_get w url fo j) as [e|html]; [reflexivity|].
  cbv zeta. forget_page.
  match goal with p : (document * jsstring)%type |- _ => destruct p as [d c] end.
  cbn [fst snd]. unfold keep_larger, content_length. cbn [fst snd].
  destruct (100 <=? length c); [reflexivity|].
  destruct (length (bestContent st) <? length c);
    cbn [bestContent bestMetadata fst snd];
    match goal with
    | |- context [num_eq j ?x && ?y] => destruct (num_eq j x && y)
    end; reflexivity.
Qed.

Lemma attempt_extract_url (j : Z) (c : jsstring) (m : Metadata.t) :
  attempt_extract w url fo j = inr (c, m) -> Metadata.url m = url.
Proof.
  unfold attempt_extract.
  destruct (axios_get w url fo j) as [e|html]; [discriminate|].
  cbv zeta.
  assert (Hu : Metadata.url (extractMetadata (cheerio_load w html) url) = url)
    by (unfold extractMetadata; reflexivity).
  revert Hu. forget_page. intros Hu H. injection H as _ <-. exact Hu.
Qed.

Lemma track_paired (P : Z -> Prop) (st : loop_state) (j : Z) :
  P j -> paired w url fo P st -> paired w url fo P (track w url fo st j).
Proof.
  intros Hj Hst. unfold paired, track in *.
  destruct (attempt_extract w url fo j) as [e|[c m]] eqn:Hex;
    cbn [bestContent bestMetadata]; [exact Hst|].
  unfold keep_larger, content_length. cbn [fst snd].
  destruct (length (bestContent st) <? length c); cbn [fst snd];
    [|exact Hst].
  intros _. exists j. split; [exact Hj | exact Hex].
Qed.

Lemma run_success (P : Z -> Prop) (todo : list Z) (st : loop_state)
    (res : ScrapingResult) (evs : list event) :
  paired w url fo P st -> (forall j, In j todo -> P j) ->
  run_attempts w url fo todo st = (Resolved res, evs) ->
  success res = true ->
  exists j c m,
    P j /\ attempt_extract w url fo j = inr (c, m) /\ c <> []
    /\ content res = Some c /\ metadata res = Some m /\ error res = None.
Proof.
  revert st evs; induction todo as [|j todo IH]; intros st evs Hst HP.
  - cbn [run_attempts]. unfold after_loop.
    destruct (bestContent st) as [|x s] eqn:Hbest.
    + cbn [length Nat.ltb Nat.leb].
      destruct (getErrorMessage (lastError st)); [|discriminate].
      intros [= <- _]. discriminate.
    + change (0 <? length (x :: s)) with true. cbv iota.
      intros [= <- _] _.
      destruct Hst as (j & Hj & Hex); [rewrite Hbest; discriminate|].
      exists j, (x :: s), (bestMetadata st). rewrite Hbest in Hex.
      split; [exact Hj|]. split; [exact Hex|]. split; [discriminate|].
      repeat split.
  - cbn [run_attempts].
    pose proof (attempt_body_cases j st) as Hcase.
    pose proof (track_paired P st j (HP j (or_introl eq_refl)) Hst) as Hst'.
    assert (HP' : forall i, In i todo -> P i)
      by (intros i Hi; apply HP; right; exact Hi).
    destruct (attempt_extract w url fo j) as [e|[c m]] eqn:Hex.
    + rewrite Hcase.
      destruct (run_attempts w url fo todo _) as [c0 evs'] eqn:Hrun.
      intros [= -> _]. exact (IH _ _ Hst' HP' Hrun).
    + cbv zeta in Hcase.
      destruct (Nat.leb_spec 100 (length c)) as [H100|H100].
      * rewrite Hcase. intros [= <- _] _.
        exists j, c, m.
        split; [apply HP; left; reflexivity|]. split; [exact Hex|].
        split; [intros ->; cbn [length] in H100; lia|].
        repeat split.
      * destruct (num_eq j (retries fo)
                  && (0 <? length (bestContent (track w url fo st j))))
          eqn:Hlast; rewrite Hcase.
        -- intros [= <- _] _.
           apply andb_true_iff in Hlast. destruct Hlast as [_ Hpos].
           apply Nat.ltb_lt in Hpos.
           destruct Hst' as (i & Hi & Hexi);
             [intro H0; rewrite H0 in Hpos; cbn [length] in Hpos; lia|].
           exists i, (bestContent (track w url fo st j)),
             (bestMetadata (track w url fo st j)).
           split; [exact Hi|]. split; [exact Hexi|].
           split; [intro H0; rewrite H0 in Hpos; cbn [length] in Hpos; lia|].
           repeat split.
        -- destruct (run_attempts w url fo todo _) as [c0 evs'] eqn:Hrun.
           intros [= -> _]. exact (IH _ _ Hst' HP' Hrun).
Qed.

Lemma getErrorMessage_filled (e : JsError) :
  exists msg, getErrorMessage (Some e) = Some msg /\ msg <> [].
Proof.
  cbn [getErrorMessage]. eexists. split; [reflexivity|].
  repeat match goal with
         | |- context [if ?b then _ else _] => destruct b
         end; try discriminate.
  unfold or_else. destruct (message e); discriminate.
Qed.

Lemma run_failure (todo : list Z) (st : loop_state)
    (res : ScrapingResult) (evs : list event) :
  run_attempts w url fo todo st = (Resolved res, evs) ->
  success res = false ->
  content res = None /\ exists msg, error res = Some msg /\ msg <> [].
Proof.
  revert st evs; induction todo as [|j todo IH]; intros st evs.
  - cbn [run_attempts]. unfold after_loop.
    destruct (0 <? _); [intros [= <- _]; discriminate|].
    destruct (lastError st) as [e|]; [|discriminate].
    destruct (getErrorMessage_filled e) as (msg & -> & Hmsg).
    intros [= <- _] _. split; [reflexivity|]. exists msg. split; auto.
  - cbn [run_attempts].
    pose proof (attempt_body_cases j st) as Hcase.
    destruct (attempt_extract w url fo j) as [e|[c m]].
    + rewrite Hcase.
      destruct (run_attempts w url fo todo _) as [c0 evs'] eqn:Hrun.
      intros [= -> _]. exact (IH _ _ Hrun).
    + cbv zeta in Hcase.
      destruct (100 <=? length c);
        [rewrite Hcase; intros [= <- _]; discriminate|].
      destruct (num_eq j (retries fo) && _);
        [rewrite Hcase; intros [= <- _]; discriminate|].
      rewrite Hcase.
      destruct (run_attempts w url fo todo _) as [c0 evs'] eqn:Hrun.
      intros [= -> _]. exact (IH _ _ Hrun).
Qed.

End Turn.

(** ** The call, whatever the network does *)

Section AnyWorld.

Variable w : world.
Variable url : jsstring.
Variable options : ScrapingOptions.

Local Abbreviation fo := (spread DEFAULT_OPTIONS options).

(** The merged [retries]: the caller's when the property is present, the
    default 3 when it is absent. *)
Lemma merged_retries :
  retries fo
  = match Options.retries options with
    | Absent => Some 3%Z
    | Value (Integer r) => Some r
    | _ => None
    end.
Proof.
  unfold retries, spread, spread_field. cbn [Options.retries DEFAULT_OPTIONS].
  destruct (Options.retries options) as [| |[r|]]; reflexivity.
Qed.

Lemma delay_bounds (j : Z) : (1 <= j -> 1000 <= delay j <= 5000)%Z.
Proof.
  intro Hj. unfold delay.
  assert (H : (1 <= 2 ^ (j - 1))%Z).
  { change 1%Z with (2 ^ 0)%Z at 1. apply Z.pow_le_mono_r; lia. }
  lia.
Qed.

(** The effects of the turns [s], [s+1], ..., [r]. *)
Lemma run_trace (r : Z) (n s : nat) (st : loop_state) :
  retries fo = Some r ->
  (Z.of_nat s + Z.of_nat n = r)%Z ->
  exists k,
    (Z.of_nat s <= k <= r)%Z
    /\ snd (run_attempts w url fo (map Z.of_nat (seq s (S n))) st)
       = flat_map (fun j => [Request url j; Sleep (delay j)])
           (map Z.of_nat (seq s (Z.to_nat (k - Z.of_nat s))))
         ++ [Request url k].
Proof.
  intro Hr. revert s st; induction n as [|n IH]; intros s st Hs.
  - exists (Z.of_nat s). split; [lia|].
    replace (Z.of_nat s - Z.of_nat s)%Z with 0%Z by lia.
    cbn [Z.to_nat seq map flat_map app run_attempts].
    pose proof (attempt_body_cases w url fo (Z.of_nat s) st) as Hcase.
    assert (Hlt : num_lt (Z.of_nat s) (retries fo) = false).
    { rewrite Hr. cbn [num_lt]. apply Z.ltb_ge. lia. }
    rewrite Hlt in Hcase.
    destruct (attempt_extract w url fo (Z.of_nat s)) as [e|[c m]].
    + rewrite Hcase. reflexivity.
    + cbv zeta in Hcase. destruct (100 <=? length c);
        [rewrite Hcase; reflexivity|].
      destruct (num_eq _ _ && _); rewrite Hcase; reflexivity.
  - cbn [seq map run_attempts].
    pose proof (attempt_body_cases w url fo (Z.of_nat s) st) as Hcase.
    assert (Hlt : num_lt (Z.of_nat s) (retries fo) = true).
    { rewrite Hr. cbn [num_lt]. apply Z.ltb_lt. lia. }
    rewrite Hlt in Hcase.
    assert (Hnow : forall result,
              exists k,
                (Z.of_nat s <= k <= r)%Z
                /\ snd (@Resolved ScrapingResult result, [Request url (Z.of_nat s)])
                   = flat_map (fun j => [Request url j; Sleep (delay j)])
                       (map Z.of_nat (seq s (Z.to_nat (k - Z.of_nat s))))
                     ++ [Request url k]).
    { intro result. exists (Z.of_nat s). split; [lia|].
      replace (Z.of_nat s - Z.of_nat s)%Z with 0%Z by lia. reflexivity. }
    assert (Hlater : forall st',
              exists k,
                (Z.of_nat s <= k <= r)%Z
                /\ snd (let (c, evs') :=
                          run_attempts w url fo
                            (map Z.of_nat (seq (S s) (S n))) st' in
                        (c, [Request url (Z.of_nat s);
                             Sleep (delay (Z.of_nat s))] ++ evs'))
                   = flat_map (fun j => [Request url j; Sleep (delay j)])
                       (map Z.of_nat (seq s (Z.to_nat (k - Z.of_nat s))))
                     ++ [Request url k]).
    { intro st'. destruct (IH (S s) st' ltac:(lia)) as (k & Hk & Htrace).
      exists k. split; [lia|].
      destruct (run_attempts w url fo _ st') as [c evs'].
      cbn [snd] in *. rewrite Htrace.
      replace (Z.to_nat (k - Z.of_nat s))
        with (S (Z.to_nat (k - Z.of_nat (S s)))) by lia.
      reflexivity. }
    destruct (attempt_extract w url fo (Z.of_nat s)) as [e|[c m]].
    + rewrite Hcase. apply Hlater.
    + cbv zeta in Hcase. destruct (100 <=? length c);
        [rewrite Hcase; apply Hnow|].
      destruct (num_eq _ _ && _); rewrite Hcase; [apply Hnow | apply Hlater].
Qed.

Lemma scrape_trace (r : Z) :
  url <> [] -> isValidUrl w url = true -> retries fo = Some r ->
  (1 <= r)%Z ->
  exists k, (1 <= k <= r)%Z /\ snd (scrapeBlogText w url options) = turns url k.
Proof.
  intros Hne Hvalid Hr Hr1.
  rewrite (scrape_valid w url options Hne Hvalid), Hr.
  unfold attempt_numbers at 1.
  replace (Z.to_nat r) with (S (Z.to_nat (r - 1))) by lia.
  destruct (run_trace r (Z.to_nat (r - 1)) 1 (start url) Hr ltac:(lia))
    as (k & Hk & Htrace).
  exists k. split; [lia|]. rewrite Htrace. unfold turns, attempt_numbers.
  replace (k - Z.of_nat 1)%Z with (k - 1)%Z by lia. reflexivity.
Qed.

End AnyWorld.

(** ** More statements about [scrapeBlogText] *)

(** X8: a success result always holds a content that is not empty, no
    error, and the content and the metadata that one and the same attempt
    extracted; the metadata echoes the address. *)
Theorem success_comes_from_one_attempt (w : world) (url : jsstring)
    (options : ScrapingOptions) (res : ScrapingResult) (evs : list event) :
  let fo := spread DEFAULT_OPTIONS options in
  scrapeBlogText w url options = (Resolved res, evs) ->
  success res = true ->
  exists r j c m,
    retries fo = Some r /\ (1 <= j <= r)%Z
    /\ attempt_extract w url fo j = inr (c, m)
    /\ c <> [] /\ content res = Some c /\ metadata res = Some m
    /\ Metadata.url m = url /\ error res = None.
Proof.
  intros fo Hres Hok.
  destruct url as [|x s] eqn:Hurl.
  - rewrite scrape_invalid in Hres by (left; reflexivity).
    injection Hres as <- _. discriminate Hok.
  - rewrite <- Hurl in *. destruct (isValidUrl w url) eqn:Hvalid.
    + rewrite scrape_valid in Hres by (subst; auto; discriminate).
      fold fo in Hres. destruct (retries fo) as [r|] eqn:Hr.
      * destruct (run_success w url fo (fun j => (1 <= j <= r)%Z)
                    (attempt_numbers (Some r)) (start url) res evs)
          as (j & c & m & Hj & Hex & Hc & Hcontent & Hmeta & Herr); auto.
        -- intro H. contradiction H. reflexivity.
        -- intros j Hj. apply attempt_numbers_In. exact Hj.
        -- exists r, j, c, m. repeat split; try assumption; try lia.
           exact (attempt_extract_url w url fo j c m Hex).
      * discriminate Hres.
    + rewrite scrape_invalid in Hres by (right; exact Hvalid).
      injection Hres as <- _. discriminate Hok.
Qed.

Lemma success_comes_from_one_attempt_witness :
  exists j c m,
    (1 <= j <= 3)%Z
    /\ attempt_extract Samples.second_time_lucky Samples.blog
         (spread DEFAULT_OPTIONS no_options) j = inr (c, m)
    /\ Metadata.url m = Samples.blog
    /\ fst (scrapeBlogText Samples.second_time_lucky Samples.blog no_options)
       = Resolved {| success := true;
                     content := Some c;
                     error := None;
                     metadata := Some m |}.
Proof.
  destruct (scrapeBlogText Samples.second_time_lucky Samples.blog no_options)
    as [[res|] evs] eqn:H.
  - assert (Hok : success res = true).
    { vm_compute in H. injection H as <- _. reflexivity. }
    destruct (success_comes_from_one_attempt _ _ _ _ _ H Hok)
      as (r & j & c & m & Hr & Hj & Hex & _ & Hc & Hm & Hu & He).
    injection Hr as <-.
    exists j, c, m. split; [exact Hj|]. split; [exact Hex|].
    split; [exact Hu|].
    cbn [fst]. destruct res as [s0 c0 e0 m0]. cbn in Hok, Hc, Hm, He.
    subst. reflexivity.
  - vm_compute in H. discriminate H.
Defined.

(** X9: a failure result always holds a message that is not empty and
    never a content. *)
Theorem failure_has_message_only (w : world) (url : jsstring)
    (options : ScrapingOptions) (res : ScrapingResult) (evs : list event) :
  scrapeBlogText w url options = (Resolved res, evs) ->
  success res = false ->
  content res = None /\ exists msg, error res = Some msg /\ msg <> [].
Proof.
  intros Hres Hfail.
  assert (Hinvalid : url = [] \/ isValidUrl w url = false ->
            content res = None
            /\ exists msg, error res = Some msg /\ msg <> []).
  { intro H. rewrite (scrape_invalid w url options H) in Hres.
    injection Hres as <- _. split; [reflexivity|].
    eexists. split; [reflexivity | discriminate]. }
  destruct url as [|x s] eqn:Hurl; [apply Hinvalid; left; reflexivity|].
  rewrite <- Hurl in *. destruct (isValidUrl w url) eqn:Hvalid;
    [|apply Hinvalid; right; reflexivity].
  rewrite scrape_valid in Hres by (subst; auto; discriminate).
  exact (run_failure w url _ _ _ res evs Hres Hfail).
Qed.

Lemma failure_has_message_only_witness :
  exists res,
    fst (scrapeBlogText Samples.offline Samples.blog no_options) = Resolved res
    /\ content res = None
    /\ error res = Some (js "Request timed out. Please try again.").
Proof.
  destruct (scrapeBlogText Samples.offline Samples.blog no_options)
    as [[res|] evs] eqn:H.
  - assert (Hfail : success res = false).
    { vm_compute in H. injection H as <- _. reflexivity. }
    exists res. split; [reflexivity|].
    split; [exact (proj1 (failure_has_message_only _ _ _ _ _ H Hfail))|].
    vm_compute in H. injection H as <- _. reflexivity.
  - vm_compute in H. discriminate H.
Defined.

(** X10: whatever the network does, a call with a valid address and at
    least one attempt allowed makes the requests of the attempts 1 to [k]
    for some [k] up to [retries], sleeps after each of them but the last,
    each time between one and five seconds, and does nothing else. *)
Theorem effects_are_bounded (w : world) (url : jsstring)
    (options : ScrapingOptions) (r : Z) :
  url <> [] -> isValidUrl w url = true ->
  retries (spread DEFAULT_OPTIONS options) = Some r ->
  (1 <= r)%Z ->
  let evs := snd (scrapeBlogText w url options) in
  exists k,
    (1 <= k <= r)%Z
    /\ evs = flat_map
               (fun j => [Request url j;
                          Sleep (Z.min (1000 * 2 ^ (j - 1)) 5000)])
               (attempt_numbers (Some (k - 1)%Z))
             ++ [Request url k]
    /\ requests evs = attempt_numbers (Some k)
    /\ length (sleeps evs) = Z.to_nat (k - 1)
    /\ Forall (fun ms => (1000 <= ms <= 5000)%Z) (sleeps evs).
Proof.
  intros Hne Hvalid Hr Hr1. cbv zeta.
  destruct (scrape_trace w url options r Hne Hvalid Hr Hr1) as (k & Hk & ->).
  exists k. split; [exact Hk|]. split; [reflexivity|].
  split; [apply requests_turns; lia|].
  rewrite sleeps_turns. split.
  - rewrite length_map. unfold attempt_numbers.
    rewrite length_map, length_seq. reflexivity.
  - apply Forall_forall. intros ms Hms. apply in_map_iff in Hms.
    destruct Hms as (j & <- & Hj). apply attempt_numbers_In in Hj.
    apply (delay_bounds j). lia.
Qed.

Lemma effects_are_bounded_witness :
  exists k,
    (1 <= k <= 3)%Z
    /\ requests (snd (scrapeBlogText Samples.meagre Samples.blog no_options))
       = attempt_numbers (Some k).
Proof.
  assert (Hne : Samples.blog <> []) by discriminate.
  destruct (effects_are_bounded Samples.meagre Samples.blog no_options 3
              Hne eq_refl eq_refl ltac:(lia))
    as (k & Hk & _ & Hreq & _).
  exists k. split; [exact Hk | exact Hreq].
Defined.

(** X11: the backoff delay of an attempt [j >= 1] lies between one and
    five seconds, never decreases from one attempt to the next, and is five
    seconds from the fourth attempt on. *)
Theorem delay_shape (j j' : Z) :
  (1 <= j <= j')%Z ->
  (1000 <= delay j <= delay j' /\ delay j' <= 5000)%Z
  /\ ((4 <= j)%Z -> delay j = 5000%Z).
Proof.
  intro H. unfold delay.
  assert (H1 : (1 <= 2 ^ (j - 1))%Z).
  { change 1%Z with (2 ^ 0)%Z at 1. apply Z.pow_le_mono_r; lia. }
  assert (H2 : (2 ^ (j - 1) <= 2 ^ (j' - 1))%Z)
    by (apply Z.pow_le_mono_r; lia).
  split; [lia|]. intro H4.
  assert (H8 : (2 ^ 3 <= 2 ^ (j - 1))%Z) by (apply Z.pow_le_mono_r; lia).
  change (2 ^ 3)%Z with 8%Z in H8. lia.
Qed.

Lemma delay_shape_witness :
  ((1000 <= delay 2 <= delay 7 /\ delay 7 <= 5000)%Z)
  /\ delay 7 = 5000%Z.
Proof.
  destruct (delay_shape 2 7 ltac:(lia)) as [H _]. split; [exact H|].
  reflexivity.
Defined.

(** X12: when the request of every attempt fails, the call runs all its
    attempts and returns a failure whose message is the one of the error
    of the last request, with the address as its only metadata. *)
Theorem all_requests_fail (w : world) (url : jsstring)
    (options : ScrapingOptions) (r : Z) (e : JsError) :
  let fo := spread DEFAULT_OPTIONS options in
  url <> [] -> isValidUrl w url = true ->
  retries fo = Some r -> (1 <= r)%Z ->
  (forall j, (1 <= j <= r)%Z -> exists ej, axios_get w url fo j = inl ej) ->
  axios_get w url fo r = inl e ->
  scrapeBlogText w url options
  = (Resolved {| success := false;
                 content := None;
                 error := getErrorMessage (Some e);
                 metadata := Some {| Metadata.title := None;
                                     Metadata.description := None;
                                     Metadata.url := url |} |},
     turns url r).
Proof.
  intros fo Hne Hvalid Hr Hr1 Hall Hlast.
  assert (Hex : forall j, (1 <= j <= r)%Z ->
            exists ej, attempt_extract w url fo j = inl ej).
  { intros j Hj. destruct (Hall j Hj) as (ej & Hej). exists ej.
    unfold attempt_extract. rewrite Hej. reflexivity. }
  rewrite (scrape_exhausted w url options r Hne Hvalid Hr Hr1).
  - change (spread DEFAULT_OPTIONS options) with fo.
    pose proof (track_best w url fo (attempt_numbers (Some r)) (start url))
      as Hbest.
    cbv zeta in Hbest.
    assert (Hnone : extracted w url fo (attempt_numbers (Some r)) = []).
    { unfold extracted. apply flat_map_none, Forall_forall. intros j Hj.
      apply attempt_numbers_In in Hj. destruct (Hex j Hj) as (ej & ->).
      reflexivity. }
    rewrite Hnone in Hbest. cbn [first_largest fold_left start bestContent
                                  bestMetadata] in Hbest.
    assert (Herr : lastError
                     (fold_left (track w url fo) (attempt_numbers (Some r))
                        (start url))
                   = Some e).
    { rewrite (attempt_numbers_last r Hr1), fold_left_app. cbn [fold_left].
      rewrite track_lastError. unfold attempt_error, attempt_extract.
      rewrite Hlast. reflexivity. }
    destruct (fold_left (track w url fo) (attempt_numbers (Some r)) (start url))
      as [le bc bm].
    cbn [lastError bestContent bestMetadata] in Herr, Hbest.
    injection Hbest as -> ->. rewrite Herr.
    unfold after_loop. cbn [bestContent lastError length Nat.ltb Nat.leb].
    destruct (getErrorMessage_filled e) as (msg & -> & _). reflexivity.
  - intros j Hj. change (spread DEFAULT_OPTIONS options) with fo.
    unfold falls_short. destruct (Hex j Hj) as (ej & ->).
    reflexivity.
Qed.

Lemma all_requests_fail_witness :
  scrapeBlogText Samples.offline Samples.blog no_options
  = (Resolved {| success := false;
                 content := None;
                 error := Some (js "Request timed out. Please try again.");
                 metadata := Some (url_only Samples.blog) |},
     [Request Samples.blog 1; Sleep 1000;
      Request Samples.blog 2; Sleep 2000;
      Request Samples.blog 3]).
Proof.
  assert (Hne : Samples.blog <> []) by discriminate.
  rewrite (all_requests_fail Samples.offline Samples.blog no_options 3
             Samples.timed_out Hne eq_refl eq_refl ltac:(lia)
             (fun j _ => ex_intro _ Samples.timed_out eq_refl) eq_refl).
  reflexivity.
Defined.

(** X13: with a valid address the call rejects exactly when the merged
    [retries] allows no attempt: when it is an integer below 1, or when the
    caller passed it as [undefined] or [NaN], which the merge copies over
    the default.  The call then reads a property of the error that no
    attempt has set, and it has made no request.  With an integer of at
    least 1 it always resolves. *)
Theorem rejects_without_attempts (w : world) (url : jsstring)
    (options : ScrapingOptions) :
  let fo := spread DEFAULT_OPTIONS options in
  url <> [] -> isValidUrl w url = true ->
  ((forall r, retries fo = Some r -> (r < 1)%Z) ->
   scrapeBlogText w url options = (Rejected, []))
  /\ (forall r, retries fo = Some r -> (1 <= r)%Z ->
      exists res, fst (scrapeBlogText w url options) = Resolved res)
  /\ (retries fo = None
      <-> Options.retries options = Undefined
          \/ Options.retries options = Value NaN).
Proof.
  intros fo Hne Hvalid.
  rewrite (scrape_valid w url options Hne Hvalid). fold fo.
  split; [|split].
  - intro Hlow. destruct (retries fo) as [r|]; [|reflexivity].
    rewrite (attempt_numbers_none r (Hlow r eq_refl)). reflexivity.
  - intros r Hr Hr1. rewrite Hr. apply run_resolves. left.
    rewrite (attempt_numbers_last r Hr1). intro H.
    apply app_eq_nil in H. destruct H as [_ H]. discriminate H.
  - unfold fo. rewrite merged_retries.
    destruct (Options.retries options) as [| |[r|]]; split;
      try discriminate; auto; intros [H|H]; discriminate H.
Qed.

Lemma rejects_without_attempts_witness :
  scrapeBlogText Samples.third_time_lucky Samples.blog
    Samples.retries_undefined
  = (Rejected, [])
  /\ scrapeBlogText Samples.third_time_lucky Samples.blog Samples.no_retries
     = (Rejected, []).
Proof.
  assert (Hne : Samples.blog <> []) by discriminate.
  split.
  - apply (proj1 (rejects_without_attempts Samples.third_time_lucky
                    Samples.blog Samples.retries_undefined Hne eq_refl)).
    intros r Hr. discriminate Hr.
  - apply (proj1 (rejects_without_attempts Samples.third_time_lucky
                    Samples.blog Samples.no_retries Hne eq_refl)).
    intros r Hr. injection Hr as <-. lia.
Defined.


(** ** The hash, stated *)

(** X14: the hash of the sample generator is the 31-polynomial string hash
    wrapped to a signed 32-bit integer: appending a code unit [c] to a
    string of hash [h] gives the wrap of [31 * h + c], and every hash lies
    between [-2^31] and [2^31 - 1]. *)
Theorem hash_is_wrapped_polynomial (url : jsstring) (c : N) :
  hash (url ++ [c]) = toInt32 (31 * hash url + Z.of_N c)
  /\ (- 2 ^ 31 <= hash url < 2 ^ 31)%Z.
Proof.
  split.
  - unfold hash. rewrite fold_left_app. apply hash_step_poly.
  - apply hash_range_from. lia.
Qed.

(** ** The scrape route *)

(** X15: the route answers 500 only for a request it cannot read; for
    every request with an address, or without one, it answers 200 with the
    result of the call under the default options, a failure result
    included, and a request without an address gets the failure result
    without any network request being made. *)
Theorem route_answers (w : world) (u : option jsstring) :
  POST w Unreadable = (server_error, [])
  /\ exists res evs,
       scrapeBlogText w (match u with Some url => url | None => [] end)
         no_options
       = (Resolved res, evs)
       /\ POST w (Body u) = ({| http_status := 200; payload := res |}, evs)
       /\ (u = None -> success res = false /\ evs = []).
Proof.
  split; [reflexivity|]. unfold POST.
  destruct (scrape_default_resolves w
              (match u with Some url => url | None => [] end)) as (res & Hres).
  destruct (scrapeBlogText w _ no_options) as [c evs] eqn:Hcall.
  cbn [fst] in Hres. subst c.
  exists res, evs. split; [reflexivity|]. split; [reflexivity|].
  intros ->. rewrite scrape_invalid in Hcall by (left; reflexivity).
  injection Hcall as <- <-. split; reflexivity.
Qed.

(** ** Ranking sentences *)

Section Ranking.

Local Abbreviation above := (fun a b : jsstring * nat => snd b <= snd a).

Lemma insert_desc_perm (x : jsstring * nat) (l : list (jsstring * nat)) :
  Permutation (insert_desc x l) (x :: l).
Proof.
  induction l as [|y l IH]; [reflexivity|].
  cbn [insert_desc]. destruct (snd x <? snd y); [|reflexivity].
  rewrite IH. apply perm_swap.
Qed.

Lemma sort_desc_perm (l : list (jsstring * nat)) :
  Permutation (sort_desc l) l.
Proof.
  induction l as [|x l IH]; [reflexivity|].
  cbn [sort_desc fold_right]. fold (sort_desc l).
  rewrite insert_desc_perm, IH. reflexivity.
Qed.

Lemma insert_desc_sorted (x : jsstring * nat) (l : list (jsstring * nat)) :
  StronglySorted above l -> StronglySorted above (insert_desc x l).
Proof.
  induction 1 as [|y l Hl IH Hy]; [repeat constructor|].
  cbn [insert_desc]. destruct (Nat.ltb_spec (snd x) (snd y)) as [Hxy|Hxy].
  - constructor; [exact IH|].
    apply (Permutation_Forall (Permutation_sym (insert_desc_perm x l))).
    constructor; [cbn beta; lia | exact Hy].
  - constructor; [constructor; assumption|].
    constructor; [exact Hxy|].
    revert Hy. apply Forall_impl. intros z Hz. cbn beta in *. lia.
Qed.

Lemma sort_desc_sorted (l : list (jsstring * nat)) :
  StronglySorted above (sort_desc l).
Proof.
  induction l as [|x l IH]; [constructor|].
  cbn [sort_desc fold_right]. apply insert_desc_sorted. exact IH.
Qed.

Lemma sorted_app_above (l1 l2 : list (jsstring * nat)) :
  StronglySorted above (l1 ++ l2) ->
  forall a b, In a l1 -> In b l2 -> snd b <= snd a.
Proof.
  induction l1 as [|x l1 IH]; intros Hs a b Ha Hb; [contradiction|].
  cbn [app] in Hs. inversion Hs as [|? ? Hrest Hx]; subst.
  destruct Ha as [<-|Ha].
  - apply Forall_app in Hx. destruct Hx as [_ Hx].
    rewrite Forall_forall in Hx. exact (Hx b Hb).
  - exact (IH Hrest a b Ha Hb).
Qed.

Lemma sort_desc_ties (k : nat) (l : list (jsstring * nat)) :
  (forall p, In p l -> snd p = k) -> sort_desc l = l.
Proof.
  induction l as [|x l IH]; intro H; [reflexivity|].
  cbn [sort_desc fold_right]. fold (sort_desc l).
  rewrite IH by (intros p Hp; apply H; right; exact Hp).
  destruct l as [|y l]; [reflexivity|]. cbn [insert_desc].
  rewrite (H x (or_introl eq_refl)), (H y (or_intror (or_introl eq_refl))).
  rewrite Nat.ltb_irrefl. reflexivity.
Qed.

Lemma trimStart_blank (s : jsstring) :
  forallb is_space s = true -> trimStart s = [].
Proof.
  induction s as [|c s IH]; [reflexivity|].
  cbn [forallb trimStart]. destruct (is_space c); [exact IH | discriminate].
Qed.

Lemma trim_nil_iff (s : jsstring) :
  trim s = [] <-> forallb is_space s = true.
Proof.
  split.
  - intro H. apply solid_none. rewrite <- (trim_solid s), H. reflexivity.
  - intro H. unfold trim, trimEnd. rewrite (trimStart_blank s H). reflexivity.
Qed.

Variable toLowerCase : jsstring -> jsstring.

(** The branches of [summarise] on a text that is not blank. *)
Lemma summarise_filled (text : jsstring) :
  forallb is_space text = false ->
  summarise toLowerCase text
  = join (js ". ")
      (map fst
         (firstn 3
            (sort_desc
               (map (fun sentence => (sentence, score toLowerCase sentence))
                  (sentences_of text)))))
    ++ js ".".
Proof.
  intro Hfilled. unfold summarise.
  destruct text as [|c t] eqn:Htext; [discriminate Hfilled|].
  rewrite <- Htext in *. cbn [orb].
  destruct (trim text) as [|x s] eqn:Htrim.
  - apply trim_nil_iff in Htrim. congruence.
  - cbn [length Nat.eqb]. cbv zeta.
    set (scored := map (fun sentence => (sentence, score toLowerCase sentence))
                     (sentences_of text)).
    destruct (map fst (firstn 3 (sort_desc scored))) as [|a tops] eqn:Htops;
      [|reflexivity].
    cbn [length Nat.ltb Nat.leb].
    assert (Hsorted : sort_desc scored = []).
    { destruct (sort_desc scored) as [|p l]; [reflexivity|].
      discriminate Htops. }
    pose proof (sort_desc_perm scored) as Hperm. rewrite Hsorted in Hperm.
    apply Permutation_nil in Hperm. unfold scored in Hperm.
    destruct (sentences_of text); [reflexivity | discriminate Hperm].
Qed.

End Ranking.

(** ** The statements about [summarise] *)

(** X16: the summary is empty exactly when the text is empty or holds
    nothing but whitespace. *)
Theorem summarise_empty_iff (toLowerCase : jsstring -> jsstring)
    (text : jsstring) :
  summarise toLowerCase text = [] <-> forallb is_space text = true.
Proof.
  destruct (forallb is_space text) eqn:Hblank.
  - split; [reflexivity|]. intros _. unfold summarise.
    apply trim_nil_iff in Hblank. rewrite Hblank.
    cbn [length Nat.eqb]. rewrite orb_true_r. reflexivity.
  - rewrite (summarise_filled toLowerCase text Hblank).
    split; [|discriminate]. intro H. apply app_eq_nil in H.
    destruct H as [_ H]. discriminate H.
Qed.

(** X17: on a text that is not blank but has no piece of more than 10
    characters between its full stops, exclamation and question marks, the
    summary is a lone full stop. *)
Theorem summarise_without_sentences (toLowerCase : jsstring -> jsstring)
    (text : jsstring) :
  forallb is_space text = false ->
  sentences_of text = [] ->
  summarise toLowerCase text = js ".".
Proof.
  intros Hfilled Hnone.
  rewrite (summarise_filled toLowerCase text Hfilled), Hnone. reflexivity.
Qed.

Lemma summarise_without_sentences_witness :
  summarise ascii_lower Samples.chatter = js ".".
Proof.
  apply summarise_without_sentences; vm_compute; reflexivity.
Defined.

(** X18: on a text that is not blank the summary is made of the three best
    sentences (of all of them when there are fewer), each followed by a
    full stop: the sentences left out are the others, and none of them
    scores more than a chosen one. *)
Theorem summarise_takes_the_best (toLowerCase : jsstring -> jsstring)
    (text : jsstring) :
  forallb is_space text = false ->
  exists tops rest,
    summarise toLowerCase text = join (js ". ") tops ++ js "."
    /\ length tops = Nat.min 3 (length (sentences_of text))
    /\ Permutation (tops ++ rest) (sentences_of text)
    /\ forall a b, In a tops -> In b rest ->
         score toLowerCase b <= score toLowerCase a.
Proof.
  intro Hfilled. rewrite (summarise_filled toLowerCase text Hfilled).
  set (scored := map (fun sentence => (sentence, score toLowerCase sentence))
                   (sentences_of text)).
  pose proof (sort_desc_perm scored) as Hperm.
  pose proof (sort_desc_sorted scored) as Hsorted.
  assert (Hscore : forall p, In p (sort_desc scored) ->
            snd p = score toLowerCase (fst p)).
  { intros p Hp. apply (Permutation_in _ Hperm) in Hp.
    unfold scored in Hp. apply in_map_iff in Hp.
    destruct Hp as (s & <- & _). reflexivity. }
  exists (map fst (firstn 3 (sort_desc scored))),
    (map fst (skipn 3 (sort_desc scored))).
  split; [reflexivity|]. split; [|split].
  - rewrite length_map, length_firstn, (Permutation_length Hperm).
    unfold scored. rewrite length_map. reflexivity.
  - rewrite <- map_app, firstn_skipn.
    rewrite (Permutation_map fst Hperm). unfold scored.
    rewrite map_map. cbn [fst]. rewrite map_id. reflexivity.
  - intros a b Ha Hb. apply in_map_iff in Ha, Hb.
    destruct Ha as (pa & <- & Ha). destruct Hb as (pb & <- & Hb).
    rewrite <- (firstn_skipn 3 (sort_desc scored)) in Hsorted, Hscore.
    rewrite <- (Hscore pa), <- (Hscore pb)
      by (apply in_or_app; auto).
    exact (sorted_app_above _ _ Hsorted pa pb Ha Hb).
Qed.

Lemma summarise_takes_the_best_witness :
  length (sentences_of Samples.report) = 4
  /\ exists tops rest,
       summarise ascii_lower Samples.report = join (js ". ") tops ++ js "."
       /\ length tops = 3
       /\ Permutation (tops ++ rest) (sentences_of Samples.report).
Proof.
  assert (H4 : length (sentences_of Samples.report) = 4)
    by (vm_compute; reflexivity).
  split; [exact H4|].
  destruct (summarise_takes_the_best ascii_lower Samples.report eq_refl)
    as (tops & rest & Hsum & Hlen & Hperm & _).
  exists tops, rest. rewrite H4 in Hlen.
  split; [exact Hsum|]. split; [exact Hlen | exact Hperm].
Defined.

(** The summary of the sample report. *)
Example summarise_report :
  summarise ascii_lower Samples.report
  = js "The main finding is that the key result holds. Further research and analysis point to the same conclusion. The weather was mild all week.".
Proof. vm_compute. reflexivity. Qed.

(** X19: when all sentences score the same, in particular when none holds
    a keyword, the summary is made of the first three sentences in the
    order of the text. *)
Theorem summarise_ties_keep_order (toLowerCase : jsstring -> jsstring)
    (text : jsstring) (k : nat) :
  forallb is_space text = false ->
  (forall s, In s (sentences_of text) -> score toLowerCase s = k) ->
  summarise toLowerCase text
  = join (js ". ") (firstn 3 (sentences_of text)) ++ js ".".
Proof.
  intros Hfilled Hties.
  rewrite (summarise_filled toLowerCase text Hfilled).
  rewrite (sort_desc_ties k).
  - rewrite <- firstn_map, map_map. cbn [fst]. rewrite map_id. reflexivity.
  - intros p Hp. apply in_map_iff in Hp. destruct Hp as (s & <- & Hs).
    exact (Hties s Hs).
Qed.

Lemma summarise_ties_keep_order_witness :
  summarise ascii_lower Samples.plain
  = js "The first sentence of four. Then the second sentence. And the third sentence.".
Proof.
  rewrite (summarise_ties_keep_order ascii_lower Samples.plain 0 eq_refl).
  - vm_compute. reflexivity.
  - intros s Hs.
    assert (H : forallb (fun s => score ascii_lower s =? 0)
                  (sentences_of Samples.plain) = true)
      by (vm_compute; reflexivity).
    rewrite forallb_forall in H. apply Nat.eqb_eq. exact (H s Hs).
Defined.
